(** * The chat screen of testing_expo: session state and reply resolver

    A shallow embedding of the home screen component ([HomeScreen]): its three
    state cells ([message], [isLoading], [chatHistory]), the async functions
    [callGeminiApi] and [sendMessage], the props that gate the text input and
    the send button, and the credential of [app.config.js].

    Async functions are written as trees of a small program monad whose
    nodes are the synchronous commands and the [await] points of the source;
    a handler runs a tree up to its next [await], the environment settles it,
    and the rest runs later against whatever the state has become. *)

From Stdlib Require Import String Ascii List Bool Arith ZArith Lia.
From Stdlib Require Import DecimalString.
From Stdlib Require Import Floats.SpecFloat.
Import ListNotations.
Open Scope string_scope.

Set Implicit Arguments.

(** ** Strings *)

(** A string is a sequence of code units; the model keeps the ones below
    256.  [trim] removes ECMAScript white space and line terminators from
    both ends: in that range TAB, LF, VT, FF, CR, SPACE and NBSP. *)
Definition is_white_space (c : ascii) : bool :=
  existsb (Ascii.eqb c) ["009"; "010"; "011"; "012"; "013"; " "; "160"]%char.

Fixpoint trimStart (s : string) : string :=
  match s with
  | EmptyString => EmptyString
  | String c rest => if is_white_space c then trimStart rest else s
  end.

Fixpoint trimEnd (s : string) : string :=
  match s with
  | EmptyString => EmptyString
  | String c rest =>
      match trimEnd rest with
      | EmptyString => if is_white_space c then EmptyString else String c EmptyString
      | kept => String c kept
      end
  end.

Definition trim (s : string) : string := trimEnd (trimStart s).

(** The template literal [`${n}`] for an integer. *)
Definition number_to_string (n : Z) : string :=
  NilZero.string_of_int (Z.to_int n).

(** ** Values *)

(** What [response.json()] can produce, plus [undefined], which optional
    chaining produces. *)
#[warnings="-register-all"] Inductive JsValue : Type :=
| VUndefined
| VNull
| VBoolean (b : bool)
| VNumber (x : spec_float)
| VString (s : string)
| VArray (items : list JsValue)
| VObject (fields : list (string * JsValue)).

(** ToBoolean. *)
Definition truthy (v : JsValue) : bool :=
  match v with
  | VUndefined | VNull => false
  | VBoolean b => b
  | VNumber (S754_zero _) | VNumber S754_nan => false
  | VNumber _ => true
  | VString s => negb (s =? "")
  | VArray _ | VObject _ => true
  end.

(** [a || b]. *)
Definition js_or (a b : JsValue) : JsValue := if truthy a then a else b.

(** Own property of an object literal; [fields] lists each name once. *)
Fixpoint own_property (fields : list (string * JsValue)) (name : string) : JsValue :=
  match fields with
  | [] => VUndefined
  | (k, v) :: rest => if k =? name then v else own_property rest name
  end.

(** [v?.name], for a name that no built-in prototype defines (the program
    reads [candidates], [content], [parts] and [text]): only an object that
    has the property gives something else than [undefined]. *)
Definition opt_member (v : JsValue) (name : string) : JsValue :=
  match v with
  | VObject fields => own_property fields name
  | _ => VUndefined
  end.

(** [v?.[0]]: the first element of an array, the first code unit of a
    string, the property ["0"] of an object. *)
Definition opt_index0 (v : JsValue) : JsValue :=
  match v with
  | VArray items => hd VUndefined items
  | VString (String c _) => VString (String c EmptyString)
  | VObject fields => own_property fields "0"
  | _ => VUndefined
  end.

(** ** Exceptions and promises *)

(** A thrown value: an [Error] with its message. *)
Inductive JsError : Type := Error (message : string).

(** How a promise settles. *)
Inductive Settled (A : Type) : Type :=
| Fulfilled (value : A)
| Rejected (reason : JsError).
Arguments Fulfilled {A} value.
Arguments Rejected {A} reason.

(** ** The fetch API, as far as the screen uses it *)

Record RequestInit : Type := {
  method : string;
  headers : list (string * string);
  body : JsValue               (* the argument of JSON.stringify *)
}.

Record Response : Type := { status : Z }.

(** [response.ok]: the status is in the range 200-299. *)
Definition ok (r : Response) : bool :=
  (200 <=? status r)%Z && (status r <=? 299)%Z.

(** The environment: what each awaited promise settles to. *)
Record Env : Type := {
  fetch : string -> RequestInit -> Settled Response;
  response_text : Response -> Settled string;
  response_json : Response -> Settled JsValue
}.

(** ** Session data *)

Record ChatMessage : Type := {
  id : nat;
  text : JsValue;    (* declared string; a reply is whatever the payload held *)
  isBot : bool
}.

(** The three [useState] cells of the screen. *)
Record Session : Type := {
  message : string;
  isLoading : bool;
  chatHistory : list ChatMessage
}.

(** ** Programs *)

Inductive LogArg : Type :=
| LogString (s : string)
| LogError (e : JsError).

(** The synchronous calls with an effect. *)
Inductive Command : Type :=
| SetMessage (value : string)
| SetIsLoading (value : bool)
| SetChatHistory (update : list ChatMessage -> list ChatMessage)
| ConsoleError (args : list LogArg)
| AlertAlert (title : string) (msg : string).

(** The body of an async function. *)
Inductive Prog (A : Type) : Type :=
| Ret (a : A)
| Throw (e : JsError)
| Do (c : Command) (k : Prog A)
| AwaitFetch (input : string) (init : RequestInit) (k : Settled Response -> Prog A)
| AwaitText (r : Response) (k : Settled string -> Prog A)
| AwaitJson (r : Response) (k : Settled JsValue -> Prog A).
Arguments Ret {A} a.
Arguments Throw {A} e.
Arguments Do {A} c k.
Arguments AwaitFetch {A} input init k.
Arguments AwaitText {A} r k.
Arguments AwaitJson {A} r k.

Fixpoint bind {A B : Type} (p : Prog A) (f : A -> Prog B) : Prog B :=
  match p with
  | Ret a => f a
  | Throw e => Throw e
  | Do c k => Do c (bind k f)
  | AwaitFetch input init k => AwaitFetch input init (fun r => bind (k r) f)
  | AwaitText r k => AwaitText r (fun t => bind (k t) f)
  | AwaitJson r k => AwaitJson r (fun j => bind (k j) f)
  end.

(** [try { p } catch (error) { handler error }]. *)
Fixpoint try_catch {A : Type} (p : Prog A) (handler : JsError -> Prog A) : Prog A :=
  match p with
  | Ret a => Ret a
  | Throw e => handler e
  | Do c k => Do c (try_catch k handler)
  | AwaitFetch input init k => AwaitFetch input init (fun r => try_catch (k r) handler)
  | AwaitText r k => AwaitText r (fun t => try_catch (k t) handler)
  | AwaitJson r k => AwaitJson r (fun j => try_catch (k j) handler)
  end.

(** [try { p } finally { cleanup }]. *)
Fixpoint try_finally {A : Type} (p : Prog A) (cleanup : Prog unit) : Prog A :=
  match p with
  | Ret a => bind cleanup (fun _ => Ret a)
  | Throw e => bind cleanup (fun _ => Throw e)
  | Do c k => Do c (try_finally k cleanup)
  | AwaitFetch input init k => AwaitFetch input init (fun r => try_finally (k r) cleanup)
  | AwaitText r k => AwaitText r (fun t => try_finally (k t) cleanup)
  | AwaitJson r k => AwaitJson r (fun j => try_finally (k j) cleanup)
  end.

(** An awaited promise gives its value or throws its reason. *)
Definition settled {A : Type} (r : Settled A) : Prog A :=
  match r with
  | Fulfilled a => Ret a
  | Rejected e => Throw e
  end.

Definition await_fetch (input : string) (init : RequestInit) : Prog Response :=
  AwaitFetch input init settled.
Definition await_text (r : Response) : Prog string := AwaitText r settled.
Definition await_json (r : Response) : Prog JsValue := AwaitJson r settled.
Definition call (c : Command) : Prog unit := Do c (Ret tt).

Declare Scope prog_scope.
Delimit Scope prog_scope with prog.
Notation "x <- p ;; q" := (bind p (fun x => q))
  (at level 61, p at next level, right associativity) : prog_scope.
Notation "p ;; q" := (bind p (fun _ => q))
  (at level 61, right associativity) : prog_scope.
Open Scope prog_scope.

(** ** The credential *)

(** [app.config.js]: [extra.geminiApiKey] is the value of [.env.js], or the
    placeholder when that is missing or empty.  [None] stands for
    [undefined]. *)
Record Extra : Type := { geminiApiKey : option string }.
Record ExpoConfig : Type := { extra : option Extra }.

(** [v || fallback] for a string or [undefined]. *)
Definition string_or (v : option string) (fallback : string) : string :=
  match v with
  | Some (String c rest) => String c rest
  | _ => fallback
  end.

Definition app_config (env_GEMINI_API_KEY : option string) : ExpoConfig :=
  {| extra := Some {| geminiApiKey :=
                        Some (string_or env_GEMINI_API_KEY "FALLBACK_API_KEY") |} |}.

(** [Constants.expoConfig?.extra?.geminiApiKey]. *)
Definition read_api_key (expoConfig : option ExpoConfig) : option string :=
  match expoConfig with
  | Some config =>
      match extra config with
      | Some e => geminiApiKey e
      | None => None
      end
  | None => None
  end.

(** The key is truthy, so the test [!GEMINI_API_KEY] fails. *)
Definition configured (key : option string) : bool :=
  match key with
  | Some (String _ _) => true
  | _ => false
  end.

(** The key inside a template literal. *)
Definition key_text (key : option string) : string :=
  match key with
  | Some k => k
  | None => "undefined"
  end.

(** ** The screen *)

Definition greeting : ChatMessage :=
  {| id := 1; text := VString "Hello! How can I help you today?"; isBot := true |}.

Definition initial_session : Session :=
  {| message := ""; isLoading := false; chatHistory := [greeting] |}.

Definition API_URL : string :=
  "https://generativelanguage.googleapis.com/v1beta/models/gemini-1.5-flash-latest:generateContent".

Definition missing_key_reply : string :=
  "API key not configured. Please add your Gemini API key to the app configuration.".
Definition no_text_reply : string :=
  "Sorry, I couldn't generate a response.".
Definition error_reply : string :=
  "Sorry, there was an error processing your request. Please try again later.".

Section Screen.

(** The module constant read once from the configuration. *)
Variable GEMINI_API_KEY : option string.

Definition request_url : string := API_URL ++ "?key=" ++ key_text GEMINI_API_KEY.

Definition request_init (userMessage : string) : RequestInit :=
  {| method := "POST";
     headers := [("Content-Type", "application/json")];
     body := VObject [("contents",
               VArray [VObject [("parts",
                 VArray [VObject [("text", VString userMessage)]])]])] |}.

(** The path [responseData?.candidates?.[0]?.content?.parts?.[0]?.text]. *)
Definition reply_text (responseData : JsValue) : JsValue :=
  opt_member
    (opt_index0
       (opt_member
          (opt_member (opt_index0 (opt_member responseData "candidates")) "content")
          "parts"))
    "text".

Definition callGeminiApi (userMessage : string) : Prog JsValue :=
  try_catch
    (if negb (configured GEMINI_API_KEY) then
       Ret (VString missing_key_reply)
     else
       response <- await_fetch request_url (request_init userMessage) ;;
       (if negb (ok response) then
          errorText <- await_text response ;;
          call (ConsoleError [LogString "API Error:"; LogString errorText]) ;;
          Throw (Error ("API request failed with status "
                          ++ number_to_string (status response)))
        else Ret tt) ;;
       responseData <- await_json response ;;
       Ret (js_or (reply_text responseData) (VString no_text_reply)))
    (fun error =>
       call (ConsoleError [LogString "Error calling Gemini API:"; LogError error]) ;;
       Ret (VString error_reply)).

(** [sendMessage] as the render that saw [render] created it: [message] and
    [chatHistory] are that render's values, while the updater handed to
    [setChatHistory] works on the history of the moment it is applied. *)
Definition sendMessage (render : Session) : Prog unit :=
  if trim (message render) =? "" then Ret tt
  else
    call (SetIsLoading true) ;;
    let newUserMessage :=
      {| id := length (chatHistory render) + 1;
         text := VString (message render);
         isBot := false |} in
    call (SetChatHistory (fun prev => (prev ++ [newUserMessage])%list)) ;;
    let userMessageText := message render in
    call (SetMessage "") ;;
    try_finally
      (try_catch
         (botResponseText <- callGeminiApi userMessageText ;;
          let botResponse :=
            {| id := length (chatHistory render) + 2;
               text := botResponseText;
               isBot := true |} in
          call (SetChatHistory (fun prev => (prev ++ [botResponse])%list)))
         (fun error =>
            call (AlertAlert "Error" "Failed to get response from AI. Please try again.") ;;
            call (ConsoleError [LogError error])))
      (call (SetIsLoading false)).

(** The props that gate the two controls. *)
Definition editable (render : Session) : bool := negb (isLoading render).
Definition disabled (render : Session) : bool :=
  isLoading render || (trim (message render) =? "").

End Screen.

(** ** Running programs *)

(** What the outside sees besides the state cells. *)
Inductive Effect : Type :=
| Logged (args : list LogArg)
| Alerted (title : string) (msg : string)
| Fetched (input : string) (init : RequestInit).

Definition perform (c : Command) (st : Session * list Effect) : Session * list Effect :=
  let (s, log) := st in
  match c with
  | SetMessage v =>
      ({| message := v; isLoading := isLoading s; chatHistory := chatHistory s |}, log)
  | SetIsLoading v =>
      ({| message := message s; isLoading := v; chatHistory := chatHistory s |}, log)
  | SetChatHistory update =>
      ({| message := message s; isLoading := isLoading s;
          chatHistory := update (chatHistory s) |}, log)
  | ConsoleError args => (s, (log ++ [Logged args])%list)
  | AlertAlert title msg => (s, (log ++ [Alerted title msg])%list)
  end.

(** Where a run stops: the function has settled, or it waits. *)
Inductive Status (A : Type) : Type :=
| Done (result : Settled A)
| Suspended (rest : Prog A).
Arguments Done {A} result.
Arguments Suspended {A} rest.

(** Run up to the next [await]; a fetch is issued when its [await] is
    reached. *)
Fixpoint run {A : Type} (p : Prog A) (st : Session * list Effect)
  : Status A * (Session * list Effect) :=
  match p with
  | Ret a => (Done (Fulfilled a), st)
  | Throw e => (Done (Rejected e), st)
  | Do c k => run k (perform c st)
  | AwaitFetch input init _ =>
      (Suspended p, (fst st, (snd st ++ [Fetched input init])%list))
  | AwaitText _ _ | AwaitJson _ _ => (Suspended p, st)
  end.

(** The awaited promise settles as [env] says. *)
Definition resume {A : Type} (env : Env) (p : Prog A) : Prog A :=
  match p with
  | AwaitFetch input init k => k (fetch env input init)
  | AwaitText r k => k (response_text env r)
  | AwaitJson r k => k (response_json env r)
  | _ => p
  end.

(** Run to the end with nothing else in between, every promise settling as
    [env] says. *)
Fixpoint exec {A : Type} (env : Env) (p : Prog A) (st : Session * list Effect)
  : Settled A * (Session * list Effect) :=
  match p with
  | Ret a => (Fulfilled a, st)
  | Throw e => (Rejected e, st)
  | Do c k => exec env k (perform c st)
  | AwaitFetch input init k =>
      exec env (k (fetch env input init))
        (fst st, (snd st ++ [Fetched input init])%list)
  | AwaitText r k => exec env (k (response_text env r)) st
  | AwaitJson r k => exec env (k (response_json env r)) st
  end.

(** ** The screen as a transition system *)

(** The state cells, the async calls that wait, and what was observed.
    The component renders again after every event, so a handler is called by
    the render that shows the current cells; an async call that waits keeps
    the values of the render that started it. *)
Record World : Type := {
  session : Session;
  tasks : list (Prog unit);
  effects : list Effect
}.

Definition initial_world : World :=
  {| session := initial_session; tasks := []; effects := [] |}.

Inductive Event : Type :=
| ChangeText (value : string)         (* TextInput onChangeText *)
| PressSend                           (* TouchableOpacity onPress *)
| Settle (i : nat) (env : Env).       (* the promise task [i] awaits settles *)

(** Start or continue an async call. *)
Definition advance (p : Prog unit) (w : World) (waiting : list (Prog unit)) : World :=
  match run p (session w, effects w) with
  | (Done _, (s, log)) => {| session := s; tasks := waiting; effects := log |}
  | (Suspended rest, (s, log)) =>
      {| session := s; tasks := (waiting ++ [rest])%list; effects := log |}
  end.

Fixpoint remove_nth {A : Type} (i : nat) (l : list A) : list A :=
  match l, i with
  | [], _ => []
  | _ :: rest, 0 => rest
  | x :: rest, S j => x :: remove_nth j rest
  end.

Section Handlers.

Variable GEMINI_API_KEY : option string.

(** The handlers themselves, whatever the controls allow. *)
Definition handle (e : Event) (w : World) : World :=
  match e with
  | ChangeText value => advance (call (SetMessage value)) w (tasks w)
  | PressSend => advance (sendMessage GEMINI_API_KEY (session w)) w (tasks w)
  | Settle i env =>
      match nth_error (tasks w) i with
      | Some task => advance (resume env task) w (remove_nth i (tasks w))
      | None => w
      end
  end.

(** The screen: a control that is not editable, or disabled, does not call
    its handler. *)
Definition ui (e : Event) (w : World) : World :=
  match e with
  | ChangeText _ => if editable (session w) then handle e w else w
  | PressSend => if disabled (session w) then w else handle e w
  | Settle _ _ => handle e w
  end.

Definition accepted (e : Event) (w : World) : bool :=
  match e with
  | PressSend => negb (disabled (session w))
  | _ => false
  end.

Fixpoint run_events (step : Event -> World -> World) (trace : list Event) (w : World)
  : World :=
  match trace with
  | [] => w
  | e :: rest => run_events step rest (step e w)
  end.

(** Sends the screen accepted along a trace. *)
Fixpoint accepted_submits (trace : list Event) (w : World) : nat :=
  match trace with
  | [] => 0
  | e :: rest => (if accepted e w then 1 else 0) + accepted_submits rest (ui e w)
  end.

End Handlers.

(** ** Concrete runs *)

Definition env_of (f : Settled Response) (t : Settled string) (j : Settled JsValue) : Env :=
  {| fetch := fun _ _ => f; response_text := fun _ => t; response_json := fun _ => j |}.

Definition payload (reply : JsValue) : JsValue :=
  VObject [("candidates",
    VArray [VObject [("content",
      VObject [("parts", VArray [VObject [("text", reply)]]);
               ("role", VString "model")])]])].

Definition env_reply (reply : string) : Env :=
  env_of (Fulfilled {| status := 200 |}) (Fulfilled "") (Fulfilled (payload (VString reply))).

Definition env_status (code : Z) : Env :=
  env_of (Fulfilled {| status := code |}) (Fulfilled "Internal error")
         (Rejected (Error "JSON Parse error")).

Definition env_offline : Env :=
  env_of (Rejected (Error "Network request failed"))
         (Rejected (Error "unused")) (Rejected (Error "unused")).

Definition history_of (w : World) : list (nat * JsValue * bool) :=
  map (fun m => (id m, text m, isBot m)) (chatHistory (session w)).

(** ** Proof vocabulary *)

(** The assistant message a send appends when the history had [n] entries in
    the render that created it. *)
Definition bot_message (n : nat) (v : JsValue) : ChatMessage :=
  {| id := n + 2; text := v; isBot := true |}.

Definition user_message (n : nat) (draft : string) : ChatMessage :=
  {| id := n + 1; text := VString draft; isBot := false |}.

(** [sendMessage] from its [try] on, the call of [callGeminiApi] having come
    to [q]. *)
Definition awaiting_reply (n : nat) (q : Prog JsValue) : Prog unit :=
  try_finally
    (try_catch
       (botResponseText <- q ;;
        call (SetChatHistory (fun prev => (prev ++ [bot_message n botResponseText])%list)))
       (fun error =>
          call (AlertAlert "Error" "Failed to get response from AI. Please try again.") ;;
          call (ConsoleError [LogError error])))
    (call (SetIsLoading false)).

(** The cells right after an accepted send, and after the reply [v] is
    merged into [s]. *)
Definition submitted (s : Session) : Session :=
  {| message := ""; isLoading := true;
     chatHistory := (chatHistory s
                       ++ [user_message (length (chatHistory s)) (message s)])%list |}.

Definition replied (n : nat) (v : JsValue) (s : Session) : Session :=
  {| message := message s; isLoading := false;
     chatHistory := (chatHistory s ++ [bot_message n v])%list |}.

(** [Resolving k q]: [q] only logs and waits, at most [k] times, and ends by
    returning; no state cell is written and nothing is thrown. *)
Inductive Resolving : nat -> Prog JsValue -> Prop :=
| resolving_ret k v : Resolving k (Ret v)
| resolving_log k args q : Resolving k q -> Resolving k (Do (ConsoleError args) q)
| resolving_fetch k input init f :
    (forall r, Resolving k (f r)) -> Resolving (S k) (AwaitFetch input init f)
| resolving_text k r f :
    (forall t, Resolving k (f t)) -> Resolving (S k) (AwaitText r f)
| resolving_json k r f :
    (forall j, Resolving k (f j)) -> Resolving (S k) (AwaitJson r f).

(** One send waits in [w]: it was created when the history had [n] entries,
    the cells are [s], and at most [k] more promises have to settle after
    the one it waits for. *)
Definition pending_send (n k : nat) (s : Session) (w : World) : Prop :=
  session w = s
  /\ exists q, tasks w = [awaiting_reply n q] /\ forall env, Resolving k (resume env q).

(** The send is over: its reply is merged into [s] and nothing waits. *)
Definition finished_send (n : nat) (s : Session) (w : World) : Prop :=
  tasks w = [] /\ exists v, session w = replied n v s.

(** Ids equal 1-based positions. *)
Definition ids_are_positions (h : list ChatMessage) : Prop :=
  map id h = seq 1 (length h).

(** Ids grow strictly along the history. *)
Definition ids_increase (h : list ChatMessage) : Prop :=
  forall i j a b, i < j -> nth_error h i = Some a -> nth_error h j = Some b -> id a < id b.

(** Single flight: while [isLoading] exactly one send waits, created when the
    history was one shorter; otherwise none waits. *)
Definition single_flight (w : World) : Prop :=
  if isLoading (session w) then
    exists n k, length (chatHistory (session w)) = n + 1
                /\ pending_send n k (session w) w
  else tasks w = [].

Definition screen_invariant (w : World) : Prop :=
  ids_are_positions (chatHistory (session w)) /\ single_flight w.

Definition in_flight (w : World) : nat := if isLoading (session w) then 1 else 0.

(** ** Vocabulary for the handlers called in any order *)

(** [Replies key draft c q]: [q] is [callGeminiApi key draft] at some point
    of its run.  It only logs and waits, ends by returning a truthy value,
    and issues [c] requests before it next waits: one, the request for
    [draft], if it has not fetched yet, and none afterwards. *)
Inductive Replies (key : option string) (draft : string) : nat -> Prog JsValue -> Prop :=
| replies_ret v : truthy v = true -> Replies key draft 0 (Ret v)
| replies_log c args q :
    Replies key draft c q -> Replies key draft c (Do (ConsoleError args) q)
| replies_fetch f :
    (forall r, Replies key draft 0 (f r)) ->
    Replies key draft 1 (AwaitFetch (request_url key) (request_init draft) f)
| replies_text r f :
    (forall t, Replies key draft 0 (f t)) -> Replies key draft 0 (AwaitText r f)
| replies_json r f :
    (forall j, Replies key draft 0 (f j)) -> Replies key draft 0 (AwaitJson r f).

(** The effects of the resolver: the one request, and logs. *)
Definition resolver_effect (key : option string) (draft : string) (e : Effect) : Prop :=
  e = Fetched (request_url key) (request_init draft) \/ exists args, e = Logged args.

(** A send that waits, however it resumes. *)
Definition sound_task (key : option string) (t : Prog unit) : Prop :=
  exists n draft q,
    t = awaiting_reply n q
    /\ (trim draft =? "") = false
    /\ forall env, Replies key draft 0 (resume env q).

Definition is_fetch (e : Effect) : bool :=
  match e with
  | Fetched _ _ => true
  | _ => false
  end.

Definition fetch_count (log : list Effect) : nat := length (filter is_fetch log).

(** What the screen may do to the outside: log, and post one draft that is
    not blank to the endpoint. *)
Definition effect_ok (key : option string) (e : Effect) : Prop :=
  match e with
  | Logged _ => True
  | Alerted _ _ => False
  | Fetched input init =>
      input = request_url key
      /\ exists draft, init = request_init draft /\ (trim draft =? "") = false
  end.

(** What a message of the history may be. *)
Definition message_ok (m : ChatMessage) : Prop :=
  truthy (text m) = true
  /\ (isBot m = false -> exists draft, text m = VString draft /\ (trim draft =? "") = false).

(** The press reaches [sendMessage] with a draft it takes. *)
Definition sent (e : Event) (w : World) : bool :=
  match e with
  | PressSend => negb (trim (message (session w)) =? "")
  | _ => false
  end.

Fixpoint sends (key : option string) (trace : list Event) (w : World) : nat :=
  match trace with
  | [] => 0
  | e :: rest => (if sent e w then 1 else 0) + sends key rest (handle key e w)
  end.

Definition handlers_invariant (key : option string) (w : World) : Prop :=
  Forall (sound_task key) (tasks w)
  /\ Forall message_ok (chatHistory (session w))
  /\ Forall (effect_ok key) (effects w).

(** The cells after a whole send, the reply being [v]. *)
Definition turn_done (render : Session) (v : JsValue) (s : Session) : Session :=
  {| message := ""; isLoading := false;
     chatHistory :=
       (chatHistory s ++ [user_message (length (chatHistory render)) (message render);
                          bot_message (length (chatHistory render)) v])%list |}.

(** ** Vocabulary for the gated screen *)

(** Assistant and user take turns, the assistant first. *)
Definition alternates (h : list ChatMessage) : Prop :=
  map isBot h = map Nat.even (seq 0 (length h)).

Definition turn_invariant (w : World) : Prop :=
  alternates (chatHistory (session w))
  /\ Nat.odd (length (chatHistory (session w))) = negb (isLoading (session w))
  /\ (isLoading (session w) = true -> message (session w) = "").

(** ** What the screen shows *)

Module View.

Inductive StyleName : Type :=
| chatBubble | botBubble | userBubble | botText | userText | botIcon.

Record Icon : Type := {
  size : nat;
  name : string;
  color : string;
  icon_style : StyleName
}.

(** A themed view with an optional icon and a themed text. *)
Record Bubble : Type := {
  key : option nat;
  style : list StyleName;
  icon : option Icon;
  text_style : StyleName;
  children : JsValue
}.

Definition bubble_icon : Icon :=
  {| size := 18; name := "bubble.left.fill"; color := "#4F8EF7"; icon_style := botIcon |}.

Definition renderChatBubble (item : ChatMessage) : Bubble :=
  {| key := Some (id item);
     style := [chatBubble; if isBot item then botBubble else userBubble];
     icon := if isBot item then Some bubble_icon else None;
     text_style := if isBot item then botText else userText;
     children := text item |}.

(** The bubble shown while [isLoading]. *)
Definition thinking : Bubble :=
  {| key := None;
     style := [chatBubble; botBubble];
     icon := Some bubble_icon;
     text_style := botText;
     children := VString "Thinking..." |}.

(** The children of the scroll view. *)
Definition scroll_content (render : Session) : list Bubble :=
  (map renderChatBubble (chatHistory render)
     ++ (if isLoading render then [thinking] else []))%list.

(** The keys React sees among these children. *)
Fixpoint keys (l : list Bubble) : list nat :=
  match l with
  | [] => []
  | b :: rest =>
      match key b with
      | Some k => k :: keys rest
      | None => keys rest
      end
  end.

End View.

(** ** The earlier screen, with a mock reply *)

(** The second component of the file: no request and no [isLoading]; a timer
    appends a fixed reply one second after each send. *)
Module Mock.

Record Screen : Type := {
  message : string;
  chatHistory : list ChatMessage
}.

(** The cells and the callbacks handed to [setTimeout] that have not run. *)
Record World : Type := {
  session : Screen;
  timers : list (Screen -> Screen)
}.

Definition placeholder_reply : string :=
  "This is a placeholder response. API integration will be added later.".

Definition initial_world : World :=
  {| session := {| message := ""; chatHistory := [greeting] |}; timers := [] |}.

(** The callback of [setTimeout]: [setChatHistory] with an updater. *)
Definition timeout_callback (botResponse : ChatMessage) (s : Screen) : Screen :=
  {| message := message s; chatHistory := (chatHistory s ++ [botResponse])%list |}.

(** [sendMessage] of the render that saw [render], the world being [w].
    The first [setChatHistory] stores a list built from the render's
    history; the timer's updater works on the history it finds. *)
Definition sendMessage (render : Screen) (w : World) : World :=
  if trim (message render) =? "" then w
  else
    let newUserMessage :=
      {| id := length (chatHistory render) + 1;
         text := VString (message render);
         isBot := false |} in
    let botResponse :=
      {| id := length (chatHistory render) + 2;
         text := VString placeholder_reply;
         isBot := true |} in
    {| session := {| message := "";
                     chatHistory := (chatHistory render ++ [newUserMessage])%list |};
       timers := (timers w ++ [timeout_callback botResponse])%list |}.

Definition disabled (render : Screen) : bool := trim (message render) =? "".

Inductive Event : Type :=
| ChangeText (value : string)
| PressSend
| TimerFires (i : nat).                  (* the timer at [i] fires *)

Definition handle (e : Event) (w : World) : World :=
  match e with
  | ChangeText value =>
      {| session := {| message := value; chatHistory := chatHistory (session w) |};
         timers := timers w |}
  | PressSend => sendMessage (session w) w
  | TimerFires i =>
      match nth_error (timers w) i with
      | Some callback =>
          {| session := callback (session w); timers := remove_nth i (timers w) |}
      | None => w
      end
  end.

Definition ui (e : Event) (w : World) : World :=
  match e with
  | PressSend => if disabled (session w) then w else handle e w
  | _ => handle e w
  end.

Definition accepted (e : Event) (w : World) : bool :=
  match e with
  | PressSend => negb (disabled (session w))
  | _ => false
  end.

Fixpoint run_events (trace : list Event) (w : World) : World :=
  match trace with
  | [] => w
  | e :: rest => run_events rest (ui e w)
  end.

Fixpoint accepted_submits (trace : list Event) (w : World) : nat :=
  match trace with
  | [] => 0
  | e :: rest => (if accepted e w then 1 else 0) + accepted_submits rest (ui e w)
  end.

(** Every send of the trace finds no timer waiting. *)
Fixpoint one_at_a_time (trace : list Event) (w : World) : bool :=
  match trace with
  | [] => true
  | e :: rest =>
      (negb (accepted e w) || match timers w with [] => true | _ => false end)
      && one_at_a_time rest (ui e w)
  end.

(** A callback appends the reply of a send made when the history had [n]
    entries. *)
Definition reply_timer (n : nat) (callback : Screen -> Screen) : Prop :=
  callback = timeout_callback
               {| id := n + 2; text := VString placeholder_reply; isBot := true |}.

(** What a message of the mock history may be. *)
Definition message_ok (m : ChatMessage) : Prop :=
  if isBot m then m = greeting \/ text m = VString placeholder_reply
  else exists draft, text m = VString draft /\ (trim draft =? "") = false.

Definition invariant (w : World) : Prop :=
  Forall (fun callback => exists n, reply_timer n callback) (timers w)
  /\ Forall message_ok (chatHistory (session w)).

(** No send has overlapped another so far. *)
Definition sequential_invariant (w : World) : Prop :=
  ids_are_positions (chatHistory (session w))
  /\ (timers w = []
      \/ exists n callback,
           length (chatHistory (session w)) = n + 1
           /\ reply_timer n callback /\ timers w = [callback]).

End Mock.

Example scenario_hi :
  let w1 := run_events (ui (Some "k")) [ChangeText "hi"; PressSend] initial_world in
  let w2 := run_events (ui (Some "k")) [Settle 0 (env_reply "Hello back");
                                        Settle 0 (env_reply "Hello back")] w1 in
  history_of w1 = [(1, VString "Hello! How can I help you today?", true);
                   (2, VString "hi", false)]
  /\ isLoading (session w1) = true
  /\ history_of w2 = [(1, VString "Hello! How can I help you today?", true);
                      (2, VString "hi", false);
                      (3, VString "Hello back", true)]
  /\ isLoading (session w2) = false.
Proof. vm_compute. repeat split. Qed.

(** ** The resolver never throws *)

Lemma callGeminiApi_resolving key userMessage :
  Resolving 2 (callGeminiApi key userMessage).
Proof.
  unfold callGeminiApi.
  destruct (configured key); cbn; [| constructor].
  constructor; intros [response | e]; cbn; [| repeat constructor].
  destruct (ok response); cbn.
  - constructor; intros [data | e]; cbn; repeat constructor.
  - constructor; intros [errorText | e]; cbn; repeat constructor.
Qed.

Lemma resume_awaiting_reply env n q :
  resume env (awaiting_reply n q) = awaiting_reply n (resume env q).
Proof. destruct q; reflexivity. Qed.

(** ** One send, from its [try] on *)

(** Up to the next [await]: either the reply is merged and the flag is
    released, or the send waits and no cell has changed. *)
Lemma run_awaiting_reply k q (Hq : Resolving k q) : forall n s log,
  (exists v log',
      run (awaiting_reply n q) (s, log) = (Done (Fulfilled tt), (replied n v s, log')))
  \/ (exists q' log' k',
         run (awaiting_reply n q) (s, log) = (Suspended (awaiting_reply n q'), (s, log'))
         /\ k = S k' /\ Resolving k q' /\ forall env, Resolving k' (resume env q')).
Proof.
  induction Hq; intros n s log.
  - left. exists v, log. reflexivity.
  - change (run (awaiting_reply n (Do (ConsoleError args) q)) (s, log))
      with (run (awaiting_reply n q) (s, (log ++ [Logged args])%list)).
    apply IHHq.
  - right. exists (AwaitFetch input init f). eexists. exists k.
    repeat split; try reflexivity; [constructor; assumption | intros env; apply H].
  - right. exists (AwaitText r f), log, k.
    repeat split; try reflexivity; [constructor; assumption | intros env; apply H].
  - right. exists (AwaitJson r f), log, k.
    repeat split; try reflexivity; [constructor; assumption | intros env; apply H].
Qed.

(** To the end: the reply is merged into whatever the state is by then. *)
Lemma exec_awaiting_reply env k q (Hq : Resolving k q) : forall n s log,
  exists v log',
    exec env (awaiting_reply n q) (s, log) = (Fulfilled tt, (replied n v s, log')).
Proof.
  induction Hq; intros n s log.
  - exists v, log. reflexivity.
  - change (exec env (awaiting_reply n (Do (ConsoleError args) q)) (s, log))
      with (exec env (awaiting_reply n q) (s, (log ++ [Logged args])%list)).
    apply IHHq.
  - change (exec env (awaiting_reply n (AwaitFetch input init f)) (s, log))
      with (exec env (awaiting_reply n (f (fetch env input init)))
              (s, (log ++ [Fetched input init])%list)).
    apply H0.
  - change (exec env (awaiting_reply n (AwaitText r f)) (s, log))
      with (exec env (awaiting_reply n (f (response_text env r))) (s, log)).
    apply H0.
  - change (exec env (awaiting_reply n (AwaitJson r f)) (s, log))
      with (exec env (awaiting_reply n (f (response_json env r))) (s, log)).
    apply H0.
Qed.

(** [sendMessage] with a draft that is not blank: three writes, then the
    wait for the reply. *)
Lemma sendMessage_accepted key render :
  (trim (message render) =? "") = false ->
  sendMessage key render =
    Do (SetIsLoading true)
      (Do (SetChatHistory
             (fun prev => (prev ++ [user_message (length (chatHistory render))
                                                  (message render)])%list))
         (Do (SetMessage "")
            (awaiting_reply (length (chatHistory render))
               (callGeminiApi key (message render))))).
Proof. intros H. unfold sendMessage. rewrite H. reflexivity. Qed.

Lemma sendMessage_blank key render :
  (trim (message render) =? "") = true -> sendMessage key render = Ret tt.
Proof. intros H. unfold sendMessage. rewrite H. reflexivity. Qed.

(** ** The resolver, run to the end *)

Arguments request_url : simpl never.
Arguments request_init : simpl never.
Arguments String.append : simpl never.

Lemma exec_callGeminiApi_unconfigured key userMessage env st :
  configured key = false ->
  exec env (callGeminiApi key userMessage) st = (Fulfilled (VString missing_key_reply), st).
Proof. intros H. unfold callGeminiApi. rewrite H. reflexivity. Qed.

(** With a credential: one fetch, then the reply or the error string. *)
Lemma exec_callGeminiApi key userMessage env s log :
  configured key = true ->
  let issued := (log ++ [Fetched (request_url key) (request_init userMessage)])%list in
  let caught e :=
    (Fulfilled (VString error_reply),
     (s, (issued ++ [Logged [LogString "Error calling Gemini API:"; LogError e]])%list)) in
  exec env (callGeminiApi key userMessage) (s, log) =
    match fetch env (request_url key) (request_init userMessage) with
    | Rejected e => caught e
    | Fulfilled response =>
        if ok response then
          match response_json env response with
          | Rejected e => caught e
          | Fulfilled responseData =>
              (Fulfilled (js_or (reply_text responseData) (VString no_text_reply)),
               (s, issued))
          end
        else
          match response_text env response with
          | Rejected e => caught e
          | Fulfilled errorText =>
              (Fulfilled (VString error_reply),
               (s, ((issued ++ [Logged [LogString "API Error:"; LogString errorText]])
                      ++ [Logged [LogString "Error calling Gemini API:";
                                  LogError (Error ("API request failed with status "
                                    ++ number_to_string (status response)))]])%list))
          end
    end.
Proof.
  intros H issued caught. unfold callGeminiApi. rewrite H. cbn.
  destruct (fetch env (request_url key) (request_init userMessage)) as [response | e];
    cbn; [| reflexivity].
  destruct (ok response); cbn.
  - destruct (response_json env response); reflexivity.
  - destruct (response_text env response); reflexivity.
Qed.

(** ** Steps of the screen *)

(** Continuing the one send that waits. *)
Lemma advance_awaiting_reply k q n w :
  Resolving k q ->
  finished_send n (session w) (advance (awaiting_reply n q) w [])
  \/ exists k', k = S k'
               /\ pending_send n k' (session w) (advance (awaiting_reply n q) w []).
Proof.
  intros Hq. unfold advance.
  destruct (run_awaiting_reply Hq n (session w) (effects w))
    as [(v & log' & Hrun) | (q' & log' & k' & Hrun & Hk & _ & Hq')]; rewrite Hrun.
  - left. split; [reflexivity |]. exists v. reflexivity.
  - right. exists k'. split; [exact Hk |]. split; [reflexivity |].
    exists q'. split; [reflexivity | exact Hq'].
Qed.

Lemma handle_send_accepted key w :
  (trim (message (session w)) =? "") = false ->
  handle key PressSend w
  = advance (awaiting_reply (length (chatHistory (session w)))
               (callGeminiApi key (message (session w))))
      {| session := submitted (session w); tasks := tasks w; effects := effects w |}
      (tasks w).
Proof.
  intros Hblank. cbn [handle]. rewrite (sendMessage_accepted key _ Hblank).
  reflexivity.
Qed.

Lemma settle_pending key env n k s w :
  pending_send n k s w ->
  finished_send n s (ui key (Settle 0 env) w)
  \/ exists k', k = S k' /\ pending_send n k' s (ui key (Settle 0 env) w).
Proof.
  intros [Hs (q & Htasks & Hq)]. subst s.
  cbn [ui handle]. rewrite Htasks. cbn [nth_error remove_nth].
  rewrite resume_awaiting_reply.
  apply advance_awaiting_reply with (k := k). apply Hq.
Qed.

Lemma settle_other key env i n k s w :
  pending_send n k s w -> ui key (Settle (S i) env) w = w.
Proof.
  intros [_ (q & Htasks & _)]. cbn [ui handle]. rewrite Htasks.
  destruct i; reflexivity.
Qed.

Lemma settle_idle key env i w : tasks w = [] -> ui key (Settle i env) w = w.
Proof. intros H. cbn [ui handle]. rewrite H. destruct i; reflexivity. Qed.

Lemma press_accepted key w :
  tasks w = [] -> disabled (session w) = false ->
  let n := length (chatHistory (session w)) in
  finished_send n (submitted (session w)) (ui key PressSend w)
  \/ pending_send n 1 (submitted (session w)) (ui key PressSend w).
Proof.
  intros Htasks Hgate n. cbn [ui]. rewrite Hgate. cbn [handle]. rewrite Htasks.
  unfold disabled in Hgate. apply orb_false_iff in Hgate as [_ Hblank].
  rewrite (sendMessage_accepted key _ Hblank).
  pose (w1 := {| session := submitted (session w); tasks := tasks w;
                 effects := effects w |}).
  change (advance _ w [])
    with (advance (awaiting_reply n (callGeminiApi key (message (session w)))) w1 []).
  destruct (advance_awaiting_reply n w1 (callGeminiApi_resolving key (message (session w))))
    as [Hdone | (k' & Hk & Hwait)].
  - left. exact Hdone.
  - right. injection Hk as <-. exact Hwait.
Qed.

(** ** Ids and positions *)

Lemma ids_snoc h m :
  ids_are_positions h -> id m = length h + 1 -> ids_are_positions (h ++ [m])%list.
Proof.
  unfold ids_are_positions. intros Hh Hm.
  rewrite map_app, length_app, seq_app, Hh. cbn. rewrite Hm.
  f_equal. f_equal. lia.
Qed.

Lemma ids_nth h : ids_are_positions h ->
  forall i m, nth_error h i = Some m -> id m = i + 1.
Proof.
  unfold ids_are_positions. intros Hh i m Hi.
  assert (Hlt : i < length h) by (apply nth_error_Some; congruence).
  apply (map_nth_error id) in Hi. rewrite Hh in Hi.
  rewrite nth_error_nth' with (d := 0) in Hi by (rewrite length_seq; exact Hlt).
  rewrite seq_nth in Hi by exact Hlt.
  injection Hi as Hi. lia.
Qed.

Lemma ids_positions_increase h : ids_are_positions h -> ids_increase h.
Proof.
  intros Hh i j a b Hij Ha Hb.
  rewrite (ids_nth Hh _ Ha), (ids_nth Hh _ Hb). lia.
Qed.

(** ** The gated screen keeps single flight *)

Lemma initial_world_invariant : screen_invariant initial_world.
Proof. split; reflexivity. Qed.

Lemma idle_no_tasks w :
  screen_invariant w -> tasks w = [] <-> isLoading (session w) = false.
Proof.
  intros [_ Hflight]. unfold single_flight in Hflight.
  destruct (isLoading (session w)).
  - destruct Hflight as (n & k & _ & _ & q & Hq & _). rewrite Hq.
    split; discriminate.
  - split; auto.
Qed.

Lemma ui_step key e w :
  screen_invariant w ->
  screen_invariant (ui key e w)
  /\ length (chatHistory (session (ui key e w))) + in_flight (ui key e w)
     = length (chatHistory (session w)) + in_flight w
       + 2 * (if accepted e w then 1 else 0).
Proof.
  intros Hw. pose proof Hw as [Hids Hflight].
  destruct e as [value | | i env].
  - (* the text input *)
    cbn [ui accepted]. unfold editable.
    destruct (isLoading (session w)) eqn:Hloading; cbn [negb];
      [split; [assumption | lia] |].
    unfold screen_invariant, single_flight, in_flight in *.
    rewrite Hloading in *. cbn. rewrite Hloading.
    split; [split |]; auto; lia.
  - (* the send button *)
    cbn [accepted].
    destruct (disabled (session w)) eqn:Hgate;
      [cbn [ui]; rewrite Hgate; cbn; split; [assumption | lia] |].
    assert (Hloading : isLoading (session w) = false)
      by (unfold disabled in Hgate; apply orb_false_iff in Hgate; tauto).
    assert (Htasks : tasks w = []) by (apply idle_no_tasks; assumption).
    unfold screen_invariant, single_flight, in_flight. rewrite Hloading. cbn [negb].
    destruct (press_accepted key w Htasks Hgate)
      as [[Hnone (v & Hs)] | [Hs Hwait]]; rewrite Hs; cbn.
    + split; [split |]; auto.
      * apply ids_snoc; [apply ids_snoc |]; auto; cbn; rewrite ?length_app; cbn; lia.
      * rewrite !length_app. cbn. lia.
    + split; [split |].
      * apply ids_snoc; auto.
      * exists (length (chatHistory (session w))), 1. rewrite length_app. cbn.
        split; [reflexivity |]. split; assumption.
      * rewrite length_app. cbn. lia.
  - (* a promise settles *)
    cbn [accepted]. unfold single_flight in Hflight.
    destruct (isLoading (session w)) eqn:Hloading.
    + destruct Hflight as (n & k & Hlen & Hsend).
      destruct i as [| i];
        [| rewrite (settle_other key env i Hsend); split; [assumption | lia]].
      unfold screen_invariant, single_flight, in_flight. rewrite Hloading.
      destruct (settle_pending key env Hsend)
        as [[Hnone (v & Hs)] | (k' & _ & Hwait)].
      * rewrite Hs. cbn. split; [split |]; auto.
        -- apply ids_snoc; auto. cbn. lia.
        -- rewrite length_app. cbn. lia.
      * pose proof Hwait as [Hs _]. rewrite Hs, Hloading.
        split; [split |]; [assumption | | lia]. exists n, k'. auto.
    + rewrite (settle_idle key env i w Hflight). split; [assumption | lia].
Qed.

Lemma ui_trace key trace : forall w,
  screen_invariant w ->
  screen_invariant (run_events (ui key) trace w)
  /\ length (chatHistory (session (run_events (ui key) trace w)))
     + in_flight (run_events (ui key) trace w)
     = length (chatHistory (session w)) + in_flight w
       + 2 * accepted_submits key trace w.
Proof.
  induction trace as [| e rest IH]; intros w Hw; cbn [run_events accepted_submits].
  - split; [exact Hw | lia].
  - destruct (ui_step key e Hw) as [Hw' Hcount].
    destruct (IH _ Hw') as [Hend Hsum].
    split; [exact Hend | lia].
Qed.

(** * The claims *)

(** C5. In every state the gated screen reaches from the seeded session, each
    message's id is its 1-based position in the history, ids grow strictly
    with append order, and whatever event comes next (a text change, a send,
    a settled promise) keeps it so. *)
Theorem ids_equal_positions key trace :
  let w := run_events (ui key) trace initial_world in
  map id (chatHistory (session w)) = seq 1 (length (chatHistory (session w)))
  /\ ids_increase (chatHistory (session w))
  /\ forall e, ids_are_positions (chatHistory (session (ui key e w))).
Proof.
  intros w.
  destruct (ui_trace key trace initial_world_invariant) as [Hw _].
  fold w in Hw. split; [apply Hw |]. split.
  - apply ids_positions_increase, Hw.
  - intros e. apply (ui_step key e Hw).
Qed.

Lemma ids_equal_positions_witness :
  map id (chatHistory (session
     (run_events (ui (Some "k"))
        [ChangeText "hi"; PressSend; Settle 0 (env_reply "Hello back");
         Settle 0 (env_reply "Hello back")] initial_world)))
  = [1; 2; 3].
Proof.
  exact (proj1 (ids_equal_positions (Some "k")
                  [ChangeText "hi"; PressSend; Settle 0 (env_reply "Hello back");
                   Settle 0 (env_reply "Hello back")])).
Defined.

(** C6. Along any trace of the gated screen, once no send waits the history
    has 1 + 2 x (accepted submits) entries. *)
Theorem history_length_after_submits key trace :
  let w := run_events (ui key) trace initial_world in
  tasks w = [] ->
  length (chatHistory (session w)) = 1 + 2 * accepted_submits key trace initial_world.
Proof.
  intros w Hidle.
  destruct (ui_trace key trace initial_world_invariant) as [Hw Hsum].
  fold w in Hw, Hsum.
  apply (idle_no_tasks Hw) in Hidle.
  unfold in_flight in Hsum. rewrite Hidle in Hsum. cbn in Hsum. lia.
Qed.

Lemma history_length_after_submits_witness :
  let trace := [ChangeText "hi"; PressSend; PressSend; Settle 0 env_offline;
                ChangeText " "; PressSend; ChangeText "again"; PressSend;
                Settle 0 (env_status 500); Settle 0 (env_status 500)] in
  tasks (run_events (ui (Some "k")) trace initial_world) = []
  /\ length (chatHistory (session (run_events (ui (Some "k")) trace initial_world))) = 5.
Proof.
  intros trace. split; [reflexivity |].
  apply (history_length_after_submits (Some "k") trace). reflexivity.
Defined.

(** C4. After a send the gated screen accepts, whatever the promises settle
    to, the flag is released and the history has grown by the user message
    and exactly one assistant message; before that the flag is up and only
    the user message is there, and nothing that settles later adds
    another. *)
Theorem accepted_submit_one_reply key trace env1 env2 :
  let w := run_events (ui key) trace initial_world in
  accepted PressSend w = true ->
  let n := length (chatHistory (session w)) in
  let w1 := ui key PressSend w in
  let w3 := run_events (ui key) [PressSend; Settle 0 env1; Settle 0 env2] w in
  (isLoading (session w1) = true ->
   chatHistory (session w1)
   = (chatHistory (session w) ++ [user_message n (message (session w))])%list)
  /\ isLoading (session w3) = false
  /\ tasks w3 = []
  /\ (exists v,
         chatHistory (session w3)
         = (chatHistory (session w)
              ++ [user_message n (message (session w)); bot_message n v])%list)
  /\ forall i env, ui key (Settle i env) w3 = w3.
Proof.
  intros w Hacc n w1 w3.
  destruct (ui_trace key trace initial_world_invariant) as [Hw _]. fold w in Hw.
  cbn [accepted] in Hacc. apply negb_true_iff in Hacc.
  assert (Htasks : tasks w = []).
  { apply (idle_no_tasks Hw). unfold disabled in Hacc.
    apply orb_false_iff in Hacc. tauto. }
  assert (Hend : finished_send n (submitted (session w)) w3
                 /\ (isLoading (session w1) = true ->
                     session w1 = submitted (session w))).
  { subst w3 w1 n. cbn [run_events].
    destruct (press_accepted key w Htasks Hacc) as [Hdone | Hwait].
    - destruct Hdone as [Hnone (v & Hs)].
      rewrite !settle_idle by (try rewrite settle_idle; assumption).
      split; [split; eauto |]. rewrite Hs. discriminate.
    - split; [| intros _; apply Hwait].
      destruct (settle_pending key env1 Hwait) as [Hdone | (k' & Hk & Hwait')].
      + rewrite settle_idle by apply Hdone. exact Hdone.
      + injection Hk as <-.
        destruct (settle_pending key env2 Hwait') as [Hdone | (k'' & Hk & _)];
          [exact Hdone | discriminate]. }
  destruct Hend as [[Hnone (v & Hs)] Hfirst].
  split; [intros Hl; rewrite (Hfirst Hl); reflexivity |].
  split; [rewrite Hs; reflexivity |].
  split; [exact Hnone |].
  split.
  - exists v. rewrite Hs. cbn. rewrite <- app_assoc. reflexivity.
  - intros i env. apply settle_idle. exact Hnone.
Qed.

Lemma accepted_submit_one_reply_witness :
  let w := run_events (ui (Some "k")) [ChangeText "hi"] initial_world in
  let w3 := run_events (ui (Some "k"))
              [PressSend; Settle 0 (env_status 500); Settle 0 (env_status 500)] w in
  accepted PressSend w = true
  /\ isLoading (session w3) = false
  /\ tasks w3 = []
  /\ history_of w3 = [(1, VString "Hello! How can I help you today?", true);
                      (2, VString "hi", false);
                      (3, VString error_reply, true)].
Proof.
  intros w w3. split; [reflexivity |].
  destruct (accepted_submit_one_reply (Some "k") [ChangeText "hi"]
              (env_status 500) (env_status 500) eq_refl)
    as (_ & Hflag & Hnone & _).
  split; [exact Hflag |]. split; [exact Hnone | reflexivity].
Defined.

(** C1, as stated, fails: [sendMessage] does not look at [isLoading].  Called
    while a send waits, with the draft ["hi"], it appends a third message,
    clears the draft and issues a second request. *)
Lemma submit_while_awaiting_counterexample :
  let w := run_events (handle (Some "k"))
             [ChangeText "a"; PressSend; ChangeText "hi"] initial_world in
  let w' := handle (Some "k") PressSend w in
  isLoading (session w) = true
  /\ message (session w) = "hi"
  /\ history_of w = [(1, VString "Hello! How can I help you today?", true);
                     (2, VString "a", false)]
  /\ history_of w' = [(1, VString "Hello! How can I help you today?", true);
                      (2, VString "a", false);
                      (3, VString "hi", false)]
  /\ message (session w') = ""
  /\ length (tasks w) = 1
  /\ length (tasks w') = 2
  /\ effects w' = (effects w ++ [Fetched (request_url (Some "k")) (request_init "hi")])%list.
Proof. vm_compute. repeat split. Qed.

(** C1, amended.  While [isLoading] is true the send button is disabled and
    the text input is not editable, so a press or an edit changes nothing:
    not the history, the draft or the flag, and no call starts.
    [sendMessage] itself is a no-op when the trimmed draft is empty,
    whatever the flag. *)
Theorem submit_while_awaiting_gated key w :
  isLoading (session w) = true ->
  ui key PressSend w = w
  /\ (forall value, ui key (ChangeText value) w = w)
  /\ (trim (message (session w)) = "" -> handle key PressSend w = w).
Proof.
  intros Hloading. split; [| split].
  - cbn [ui]. unfold disabled. rewrite Hloading. reflexivity.
  - intros value. cbn [ui]. unfold editable. rewrite Hloading. reflexivity.
  - intros Hblank. cbn [handle]. rewrite sendMessage_blank by (rewrite Hblank; reflexivity).
    destruct w; reflexivity.
Qed.

Lemma submit_while_awaiting_gated_witness :
  let w := run_events (handle (Some "k"))
             [ChangeText "a"; PressSend; ChangeText "hi"] initial_world in
  isLoading (session w) = true /\ ui (Some "k") PressSend w = w.
Proof.
  intros w. split; [reflexivity |].
  apply (submit_while_awaiting_gated (Some "k") w). reflexivity.
Defined.

(** C2, as stated, fails: the id is fixed by the render that created the
    send.  With two sends waiting the history has three entries when the
    first reply is appended, and that reply gets id 3, not 4. *)
Lemma reply_id_counterexample :
  let w := run_events (handle (Some "k"))
             [ChangeText "a"; PressSend; ChangeText "b"; PressSend] initial_world in
  let w' := handle (Some "k") (Settle 0 env_offline) w in
  length (chatHistory (session w)) = 3
  /\ exists m, chatHistory (session w') = (chatHistory (session w) ++ [m])%list
               /\ isBot m = true
               /\ id m = 3
               /\ id m <> length (chatHistory (session w)) + 1.
Proof.
  cbv zeta. split; [reflexivity |].
  exists (bot_message 1 (VString error_reply)).
  split; [vm_compute; reflexivity |]. split; [reflexivity |].
  split; [reflexivity |]. vm_compute. discriminate.
Qed.

(** C2, amended.  A send that waits was created by a render with some
    history; when it resumes, whatever the cells have become, it appends one
    assistant message whose id is that render's history length plus 2 and
    releases the flag.  If the history has grown by exactly one entry in
    between (the user message of this send), that id is the length of the
    history at append time plus 1. *)
Theorem reply_id_from_render key render log rest st1 :
  run (sendMessage key render) (render, log) = (Suspended rest, st1) ->
  forall env now log',
  exists m,
    fst (exec env rest (now, log')) = Fulfilled tt
    /\ fst (snd (exec env rest (now, log')))
       = {| message := message now; isLoading := false;
            chatHistory := (chatHistory now ++ [m])%list |}
    /\ isBot m = true
    /\ id m = length (chatHistory render) + 2
    /\ (length (chatHistory now) = length (chatHistory render) + 1 ->
        id m = length (chatHistory now) + 1).
Proof.
  intros Hrun env now log'.
  destruct (trim (message render) =? "") eqn:Hblank.
  - rewrite (sendMessage_blank key _ Hblank) in Hrun. discriminate.
  - rewrite (sendMessage_accepted key _ Hblank) in Hrun.
    cbn [run perform] in Hrun.
    destruct (run_awaiting_reply (callGeminiApi_resolving key (message render))
                (length (chatHistory render)) (submitted render) log)
      as [(v & l & Hdone) | (q' & l & k' & Hwait & _ & Hq' & _)];
      unfold submitted in *; cbn [message isLoading chatHistory] in *;
      rewrite Hrun in *; [discriminate |].
    injection Hwait as -> _.
    destruct (exec_awaiting_reply env Hq' (length (chatHistory render)) now log')
      as (v & l' & Hexec).
    exists (bot_message (length (chatHistory render)) v). rewrite Hexec. cbn.
    repeat split. lia.
Qed.

Lemma reply_id_from_render_witness :
  let render := {| message := "hi"; isLoading := false; chatHistory := [greeting] |} in
  let started := run (sendMessage (Some "k") render) (render, []) in
  let rest := match fst started with Suspended r => r | Done _ => Ret tt end in
  started = (Suspended rest, snd started)
  /\ map id (chatHistory (fst (snd (exec env_offline rest (submitted render, [])))))
     = [1; 2; 3].
Proof.
  intros render started rest.
  assert (Hstarted : started = (Suspended rest, snd started)) by reflexivity.
  split; [exact Hstarted |].
  destruct (reply_id_from_render (Some "k") render [] Hstarted
              env_offline (submitted render) [])
    as (m & _ & Hs & _ & Hid & _).
  rewrite Hs. cbn. rewrite Hid. reflexivity.
Defined.

(** C3, as stated, fails: a non-2xx status and a call that cannot complete
    give the same string. *)
Lemma service_error_counterexample :
  fst (exec (env_status 500) (callGeminiApi (Some "k") "hi") (initial_session, []))
  = fst (exec env_offline (callGeminiApi (Some "k") "hi") (initial_session, []))
  /\ fst (exec (env_status 500) (callGeminiApi (Some "k") "hi") (initial_session, []))
     = Fulfilled (VString error_reply).
Proof. split; reflexivity. Qed.

(** C3, amended.  [callGeminiApi] always returns, never throws.  Every
    failure gives one of three fixed strings, pairwise distinct: the
    missing-credential string; the "couldn't generate a response" string when
    a 2xx payload has nothing truthy at the path; and one error string shared
    by a non-2xx status, a fetch that rejects and a body that cannot be
    read. *)
Theorem resolver_fallbacks key userText env st :
  let result := fst (exec env (callGeminiApi key userText) st) in
  let request := fetch env (request_url key) (request_init userText) in
  (exists v, result = Fulfilled v)
  /\ (configured key = false -> result = Fulfilled (VString missing_key_reply))
  /\ (configured key = true ->
      (forall e, request = Rejected e -> result = Fulfilled (VString error_reply))
      /\ (forall r, request = Fulfilled r -> ok r = false ->
                    result = Fulfilled (VString error_reply))
      /\ (forall r e, request = Fulfilled r -> ok r = true ->
                      response_json env r = Rejected e ->
                      result = Fulfilled (VString error_reply))
      /\ (forall r data, request = Fulfilled r -> ok r = true ->
                         response_json env r = Fulfilled data ->
                         truthy (reply_text data) = false ->
                         result = Fulfilled (VString no_text_reply)))
  /\ missing_key_reply <> error_reply
  /\ missing_key_reply <> no_text_reply
  /\ error_reply <> no_text_reply.
Proof.
  intros result request. subst result request. destruct st as [s log].
  destruct (configured key) eqn:Hkey.
  - rewrite (@exec_callGeminiApi key userText env s log Hkey).
    split; [| split; [discriminate | split; [| repeat split; discriminate]]].
    + destruct (fetch env _ _) as [r | e]; [| eexists; reflexivity].
      destruct (ok r);
        [destruct (response_json env r) | destruct (response_text env r)];
        eexists; reflexivity.
    + intros _. repeat split.
      * intros e ->. reflexivity.
      * intros r -> ->. destruct (response_text env r); reflexivity.
      * intros r e -> -> ->. reflexivity.
      * intros r data -> -> -> Hfalsy. cbn. unfold js_or. rewrite Hfalsy. reflexivity.
  - rewrite (@exec_callGeminiApi_unconfigured key userText env (s, log) Hkey).
    split; [eexists; reflexivity |]. split; [reflexivity |].
    split; [discriminate |]. repeat split; discriminate.
Qed.

Lemma resolver_fallbacks_witness :
  configured (Some "k") = true
  /\ fetch (env_status 500) (request_url (Some "k")) (request_init "hi")
     = Fulfilled {| status := 500 |}
  /\ ok {| status := 500 |} = false
  /\ fst (exec (env_status 500) (callGeminiApi (Some "k") "hi") (initial_session, []))
     = Fulfilled (VString error_reply).
Proof.
  split; [reflexivity |]. split; [reflexivity |]. split; [reflexivity |].
  destruct (resolver_fallbacks (Some "k") "hi" (env_status 500) (initial_session, []))
    as (_ & _ & Hfail & _).
  destruct (Hfail eq_refl) as (_ & Hstatus & _).
  exact (Hstatus {| status := 500 |} eq_refl eq_refl).
Defined.

(** C7. With the credential absent or empty, [callGeminiApi] is nothing but
    the return of the missing-credential string: no [await], so no request;
    run in any environment it gives that string and leaves the cells and the
    record of effects as they were. *)
Theorem missing_credential_no_fetch key userText :
  key = None \/ key = Some "" ->
  callGeminiApi key userText = Ret (VString missing_key_reply)
  /\ forall env st,
       exec env (callGeminiApi key userText) st
       = (Fulfilled (VString missing_key_reply), st).
Proof.
  intros [-> | ->]; split; try reflexivity; intros env st; reflexivity.
Qed.

Lemma missing_credential_no_fetch_witness :
  exec env_offline (callGeminiApi None "hi") (initial_session, [])
  = (Fulfilled (VString
       "API key not configured. Please add your Gemini API key to the app configuration."),
     (initial_session, [])).
Proof.
  exact (proj2 (@missing_credential_no_fetch None "hi" (or_introl eq_refl))
               env_offline (initial_session, [])).
Defined.

(** C8. On a 2xx response whose body parses, [callGeminiApi] returns the
    string at [candidates[0].content.parts[0].text] when there is a
    non-empty one, and the "couldn't generate a response" string when the
    path is absent or holds the empty string; the path is the one a payload
    of the documented shape stores its text at. *)
Theorem reply_text_extraction key userText env st r data :
  configured key = true ->
  fetch env (request_url key) (request_init userText) = Fulfilled r ->
  ok r = true ->
  response_json env r = Fulfilled data ->
  let result := fst (exec env (callGeminiApi key userText) st) in
  (forall s, reply_text data = VString s -> s <> "" -> result = Fulfilled (VString s))
  /\ (reply_text data = VUndefined \/ reply_text data = VString "" ->
      result = Fulfilled (VString no_text_reply))
  /\ (forall v, reply_text (payload v) = v).
Proof.
  intros Hkey Hfetch Hok Hjson result. subst result. destruct st as [s log].
  rewrite (@exec_callGeminiApi key userText env s log Hkey), Hfetch, Hok, Hjson.
  cbn [fst]. unfold js_or. split; [| split].
  - intros t -> Hne. destruct t; [contradiction | reflexivity].
  - intros [-> | ->]; reflexivity.
  - intros v. reflexivity.
Qed.

Lemma reply_text_extraction_witness :
  fst (exec (env_reply "Hello back") (callGeminiApi (Some "k") "hi") (initial_session, []))
  = Fulfilled (VString "Hello back")
  /\ fst (exec (env_of (Fulfilled {| status := 200 |}) (Fulfilled "")
                  (Fulfilled (VObject [("candidates", VArray [])])))
            (callGeminiApi (Some "k") "hi") (initial_session, []))
     = Fulfilled (VString "Sorry, I couldn't generate a response.").
Proof.
  split.
  - apply (@reply_text_extraction (Some "k") "hi" (env_reply "Hello back")
             (initial_session, []) {| status := 200 |} (payload (VString "Hello back"))
             eq_refl eq_refl eq_refl eq_refl);
      [reflexivity | discriminate].
  - apply (@reply_text_extraction (Some "k") "hi"
             (env_of (Fulfilled {| status := 200 |}) (Fulfilled "")
                (Fulfilled (VObject [("candidates", VArray [])])))
             (initial_session, []) {| status := 200 |}
             (VObject [("candidates", VArray [])])
             eq_refl eq_refl eq_refl eq_refl).
    left. reflexivity.
Defined.

(** C9. The configuration shipped in [app.config.js] never leaves the
    credential absent or empty: without a value in [.env.js] it is the
    placeholder ["FALLBACK_API_KEY"].  So [callGeminiApi] always issues its
    request, with the placeholder in the URL in that case, and when the
    request fails the reply is the error string, which is not the
    missing-credential string. *)
Theorem placeholder_credential env_key :
  let key := read_api_key (Some (app_config env_key)) in
  configured key = true
  /\ (configured env_key = false ->
      key = Some "FALLBACK_API_KEY"
      /\ request_url key = API_URL ++ "?key=FALLBACK_API_KEY")
  /\ (forall userText env s log,
        exists result log',
          exec env (callGeminiApi key userText) (s, log)
          = (Fulfilled result,
             (s, (log ++ Fetched (request_url key) (request_init userText) :: log')%list))
          /\ ((forall r, fetch env (request_url key) (request_init userText) = Fulfilled r ->
                         ok r = false) ->
              result = VString error_reply))
  /\ error_reply <> missing_key_reply.
Proof.
  intros key.
  assert (Hkey : configured key = true) by (destruct env_key as [[| c k] |]; reflexivity).
  split; [exact Hkey |]. split; [| split; [| discriminate]].
  - destruct env_key as [[| c k] |]; try discriminate; intros _; split; reflexivity.
  - intros userText env s log.
    rewrite (@exec_callGeminiApi key userText env s log Hkey).
    destruct (fetch env (request_url key) (request_init userText)) as [r | e].
    + destruct (ok r) eqn:Hok.
      * destruct (response_json env r); eexists; eexists;
          (split; [rewrite <- ?app_assoc; reflexivity |]);
          intros Hfail; specialize (Hfail r eq_refl); congruence.
      * destruct (response_text env r); eexists; eexists;
          (split; [rewrite <- ?app_assoc; reflexivity | reflexivity]).
    + eexists. eexists. split; [rewrite <- app_assoc; reflexivity | reflexivity].
Qed.

Lemma placeholder_credential_witness :
  configured None = false
  /\ read_api_key (Some (app_config None)) = Some "FALLBACK_API_KEY"
  /\ request_url (read_api_key (Some (app_config None)))
     = "https://generativelanguage.googleapis.com/v1beta/models/gemini-1.5-flash-latest:generateContent?key=FALLBACK_API_KEY".
Proof.
  split; [reflexivity |].
  destruct (placeholder_credential None) as (_ & Habsent & _).
  destruct (Habsent eq_refl) as [Hkey Hurl].
  split; [exact Hkey | exact Hurl].
Defined.

(** C10. A send the screen accepts appends the draft as typed, and the
    request it issues carries the draft as typed: [trim] is used by the test
    that accepts the draft and nowhere else. *)
Theorem draft_sent_untrimmed key w :
  accepted PressSend w = true ->
  let draft := message (session w) in
  let w' := ui key PressSend w in
  (exists rest,
      chatHistory (session w')
      = (chatHistory (session w)
           ++ {| id := length (chatHistory (session w)) + 1;
                 text := VString draft; isBot := false |} :: rest)%list)
  /\ (configured key = true ->
      effects w' = (effects w ++ [Fetched (request_url key) (request_init draft)])%list)
  /\ body (request_init draft)
     = VObject [("contents",
         VArray [VObject [("parts", VArray [VObject [("text", VString draft)]])]])].
Proof.
  intros Hacc draft w'. subst w'.
  cbn [accepted] in Hacc. apply negb_true_iff in Hacc.
  cbn [ui]. rewrite Hacc.
  unfold disabled in Hacc. apply orb_false_iff in Hacc as [_ Hblank].
  rewrite (handle_send_accepted key w Hblank). fold draft.
  unfold advance. cbn [session effects].
  split; [| split; [| reflexivity]].
  - destruct (run_awaiting_reply (callGeminiApi_resolving key draft)
                (length (chatHistory (session w))) (submitted (session w)) (effects w))
      as [(v & l & Hrun) | (q' & l & k' & Hrun & _)];
      rewrite Hrun; cbn [session chatHistory replied submitted]; fold draft.
    + eexists. rewrite <- app_assoc. reflexivity.
    + exists []. reflexivity.
  - intros Hkey. unfold callGeminiApi. rewrite Hkey. reflexivity.
Qed.

Lemma draft_sent_untrimmed_witness :
  let w := ui (Some "k") (ChangeText "  hi  ") initial_world in
  let w' := ui (Some "k") PressSend w in
  accepted PressSend w = true
  /\ trim "  hi  " = "hi"
  /\ history_of w' = [(1, VString "Hello! How can I help you today?", true);
                      (2, VString "  hi  ", false)]
  /\ effects w' = [Fetched (request_url (Some "k")) (request_init "  hi  ")].
Proof.
  intros w w'. split; [reflexivity |]. split; [reflexivity |].
  destruct (@draft_sent_untrimmed (Some "k") w eq_refl) as (_ & Hsent & _).
  split; [reflexivity | exact (Hsent eq_refl)].
Defined.

(** * Further properties *)

(** ** The guard on the draft *)

Lemma trimEnd_empty s :
  (trimEnd s =? "") = forallb is_white_space (list_ascii_of_string s).
Proof.
  induction s as [| c rest IH]; [reflexivity |].
  cbn [trimEnd list_ascii_of_string forallb]. rewrite <- IH.
  destruct (trimEnd rest); [destruct (is_white_space c) |]; cbn;
    rewrite ?andb_false_r; reflexivity.
Qed.

Lemma trimStart_white s :
  forallb is_white_space (list_ascii_of_string (trimStart s))
  = forallb is_white_space (list_ascii_of_string s).
Proof.
  induction s as [| c rest IH]; [reflexivity |].
  cbn [trimStart]. destruct (is_white_space c) eqn:Hc.
  - rewrite IH. cbn [list_ascii_of_string forallb]. rewrite Hc. reflexivity.
  - reflexivity.
Qed.

Lemma trim_blank s :
  (trim s =? "") = forallb is_white_space (list_ascii_of_string s).
Proof. unfold trim. rewrite trimEnd_empty. apply trimStart_white. Qed.

(** X1. [sendMessage] returns at once, and the send button is disabled for a
    screen that is not loading, exactly when every character of the draft is
    white space; the empty draft is the special case. *)
Theorem blank_draft_guard key render :
  let blank := forallb is_white_space (list_ascii_of_string (message render)) in
  (blank = true <-> sendMessage key render = Ret tt)
  /\ disabled render = isLoading render || blank.
Proof.
  intros blank. subst blank. rewrite <- trim_blank. split; [| reflexivity].
  unfold sendMessage. destruct (trim (message render) =? ""); split; auto; discriminate.
Qed.

Lemma blank_draft_guard_witness :
  sendMessage (Some "k")
    {| message := String "009" (String "010" "   "); isLoading := false;
       chatHistory := [greeting] |}
  = Ret tt.
Proof.
  apply (proj1 (blank_draft_guard (Some "k")
                  {| message := String "009" (String "010" "   "); isLoading := false;
                     chatHistory := [greeting] |})).
  reflexivity.
Defined.

(** ** The resolver, whatever the environment *)

Lemma truthy_js_or a b : truthy b = true -> truthy (js_or a b) = true.
Proof. intros Hb. unfold js_or. destruct (truthy a) eqn:Ha; assumption. Qed.

Lemma callGeminiApi_replies key draft :
  Replies key draft (if configured key then 1 else 0) (callGeminiApi key draft).
Proof.
  unfold callGeminiApi.
  destruct (configured key); cbn; [| constructor; reflexivity].
  constructor; intros [response | e]; cbn; [| repeat constructor].
  destruct (ok response); cbn.
  - constructor; intros [data | e]; cbn; repeat constructor.
    apply truthy_js_or. reflexivity.
  - constructor; intros [errorText | e]; cbn; repeat constructor.
Qed.

Lemma fetch_count_app a b : fetch_count (a ++ b)%list = fetch_count a + fetch_count b.
Proof. unfold fetch_count. rewrite filter_app, length_app. reflexivity. Qed.

Lemma exec_replies env key draft c q (Hq : Replies key draft c q) : forall s log,
  exists v added,
    exec env q (s, log) = (Fulfilled v, (s, (log ++ added)%list))
    /\ truthy v = true
    /\ fetch_count added = c
    /\ Forall (resolver_effect key draft) added.
Proof.
  induction Hq; intros s log.
  - exists v, []. rewrite app_nil_r. repeat split; auto.
  - destruct (IHHq s (log ++ [Logged args])%list) as (v & added & Hexec & Hv & Hc & Hall).
    exists v, (Logged args :: added). cbn [exec perform]. rewrite Hexec, <- app_assoc.
    repeat split; auto. constructor; [right; eauto | assumption].
  - destruct (H0 (fetch env (request_url key) (request_init draft)) s
                (log ++ [Fetched (request_url key) (request_init draft)])%list)
      as (v & added & Hexec & Hv & Hc & Hall).
    exists v, (Fetched (request_url key) (request_init draft) :: added).
    cbn [exec fst snd]. rewrite Hexec, <- app_assoc.
    repeat split; auto.
    + change (S (fetch_count added) = 1). rewrite Hc. reflexivity.
    + constructor; [left; reflexivity | assumption].
  - destruct (H0 (response_text env r) s log) as (v & added & Hexec & Hrest).
    exists v, added. cbn [exec]. rewrite Hexec. exact (conj eq_refl Hrest).
  - destruct (H0 (response_json env r) s log) as (v & added & Hexec & Hrest).
    exists v, added. cbn [exec]. rewrite Hexec. exact (conj eq_refl Hrest).
Qed.

Lemma exec_callGeminiApi_effects key draft env s log :
  exists v added,
    exec env (callGeminiApi key draft) (s, log) = (Fulfilled v, (s, (log ++ added)%list))
    /\ truthy v = true
    /\ fetch_count added = (if configured key then 1 else 0)
    /\ Forall (resolver_effect key draft) added.
Proof. apply exec_replies. apply callGeminiApi_replies. Qed.

(** X2. Whatever the environment answers, [callGeminiApi] returns a truthy
    value (so never an empty reply), leaves the three state cells alone, and
    adds to the effects exactly one request when the key is configured (none
    otherwise) besides console logs: no retry, no alert. *)
Theorem resolver_one_request key draft env s log :
  exists v added,
    exec env (callGeminiApi key draft) (s, log) = (Fulfilled v, (s, (log ++ added)%list))
    /\ truthy v = true
    /\ fetch_count added = (if configured key then 1 else 0)
    /\ Forall (resolver_effect key draft) added.
Proof. apply exec_callGeminiApi_effects. Qed.

(** X3. When the service answers with a status outside 200-299 and the body
    can be read, the body text and the status go to the console, in that
    order after the request, and the reply is the fixed error string
    whatever the body says. *)
Theorem service_error_logged key draft env s log r errorText :
  configured key = true ->
  fetch env (request_url key) (request_init draft) = Fulfilled r ->
  ok r = false ->
  response_text env r = Fulfilled errorText ->
  exec env (callGeminiApi key draft) (s, log)
  = (Fulfilled (VString error_reply),
     (s, (log ++ [Fetched (request_url key) (request_init draft);
                  Logged [LogString "API Error:"; LogString errorText];
                  Logged [LogString "Error calling Gemini API:";
                          LogError (Error ("API request failed with status "
                                             ++ number_to_string (status r)))]])%list)).
Proof.
  intros Hkey Hfetch Hok Htext.
  rewrite (@exec_callGeminiApi key draft env s log Hkey), Hfetch, Hok, Htext.
  rewrite <- !app_assoc. reflexivity.
Qed.

Lemma service_error_logged_witness :
  snd (snd (exec (env_status 503) (callGeminiApi (Some "k") "hi") (initial_session, [])))
  = [Fetched (request_url (Some "k")) (request_init "hi");
     Logged [LogString "API Error:"; LogString "Internal error"];
     Logged [LogString "Error calling Gemini API:";
             LogError (Error "API request failed with status 503")]].
Proof.
  rewrite (@service_error_logged (Some "k") "hi" (env_status 503) initial_session []
             {| status := 503 |} "Internal error" eq_refl eq_refl eq_refl eq_refl).
  reflexivity.
Defined.

(** X4. A reply is read from the payload only if it has the nested shape:
    whenever the path gives something else than [undefined], the payload is
    an object whose [candidates] has an object at [0], whose [content] is an
    object whose [parts] has an object at [0], whose [text] is that value.
    Any other payload (null, a string, an array, a missing level) gives
    [undefined], so the fallback string, and nothing is thrown. *)
Theorem reply_text_shape data v :
  reply_text data = v -> v <> VUndefined ->
  exists top candidate content part,
    data = VObject top
    /\ opt_index0 (own_property top "candidates") = VObject candidate
    /\ own_property candidate "content" = VObject content
    /\ opt_index0 (own_property content "parts") = VObject part
    /\ own_property part "text" = v.
Proof.
  unfold reply_text. intros Hv Hdef.
  destruct data as [| | | | | | top]; cbn in Hv; try congruence.
  destruct (opt_index0 (own_property top "candidates")) as [| | | | | | candidate] eqn:Hc;
    cbn in Hv; try congruence.
  destruct (own_property candidate "content") as [| | | | | | content] eqn:Hcontent;
    cbn in Hv; try congruence.
  destruct (opt_index0 (own_property content "parts")) as [| | | | | | part] eqn:Hp;
    cbn in Hv; try congruence.
  exists top, candidate, content, part. auto.
Qed.

Lemma reply_text_shape_witness :
  exists top candidate content part,
    payload (VString "Hello back") = VObject top
    /\ opt_index0 (own_property top "candidates") = VObject candidate
    /\ own_property candidate "content" = VObject content
    /\ opt_index0 (own_property content "parts") = VObject part
    /\ own_property part "text" = VString "Hello back".
Proof.
  apply (@reply_text_shape (payload (VString "Hello back")) (VString "Hello back"));
    [reflexivity | discriminate].
Defined.

(** ** A send run to the end *)

(** Running to the end is running to the next [await] and going on from
    there. *)
Lemma exec_run {A : Type} env (p : Prog A) : forall st,
  exec env p st
  = match run p st with
    | (Done r, st') => (r, st')
    | (Suspended rest, st') => exec env (resume env rest) st'
    end.
Proof.
  induction p as [a | e | c k IH | input init k _ | r k _ | r k _]; intros st;
    try reflexivity.
  cbn [exec run]. apply IH.
Qed.

(** From its [try] on, a send merges what the resolver returns. *)
Lemma exec_awaiting_reply_of env n q : forall s log v s' log',
  exec env q (s, log) = (Fulfilled v, (s', log')) ->
  exec env (awaiting_reply n q) (s, log) = (Fulfilled tt, (replied n v s', log')).
Proof.
  induction q as [a | e | c k IH | input init k IH | r k IH | r k IH];
    intros s log v s' log' Hq.
  - injection Hq as <- <- <-. reflexivity.
  - discriminate.
  - change (exec env (awaiting_reply n (Do c k)) (s, log))
      with (exec env (awaiting_reply n k) (perform c (s, log))).
    cbn [exec] in Hq. destruct (perform c (s, log)) as [s1 log1]. apply IH. exact Hq.
  - change (exec env (awaiting_reply n (AwaitFetch input init k)) (s, log))
      with (exec env (awaiting_reply n (k (fetch env input init)))
              (s, (log ++ [Fetched input init])%list)).
    apply IH. exact Hq.
  - change (exec env (awaiting_reply n (AwaitText r k)) (s, log))
      with (exec env (awaiting_reply n (k (response_text env r))) (s, log)).
    apply IH. exact Hq.
  - change (exec env (awaiting_reply n (AwaitJson r k)) (s, log))
      with (exec env (awaiting_reply n (k (response_json env r))) (s, log)).
    apply IH. exact Hq.
Qed.

(** The resolver does not read the state cells. *)
Lemma exec_replies_session env key draft c q (Hq : Replies key draft c q) :
  forall s s' log r l,
    exec env q (s, log) = (r, (s, l)) -> exec env q (s', log) = (r, (s', l)).
Proof.
  induction Hq; intros s s' log res l Hexec; cbn [exec perform fst snd] in *.
  - injection Hexec as <- <-. reflexivity.
  - apply IHHq with (s := s). exact Hexec.
  - apply H0 with (s := s). exact Hexec.
  - apply H0 with (s := s). exact Hexec.
  - apply H0 with (s := s). exact Hexec.
Qed.

Lemma exec_sendMessage_turn key render env s log :
  (trim (message render) =? "") = false ->
  exists v added,
    exec env (callGeminiApi key (message render)) (s, log)
    = (Fulfilled v, (s, (log ++ added)%list))
    /\ exec env (sendMessage key render) (s, log)
       = (Fulfilled tt, (turn_done render v s, (log ++ added)%list)).
Proof.
  intros Hblank.
  destruct (exec_callGeminiApi_effects key (message render) env s log)
    as (v & added & Hexec & _).
  exists v, added. split; [exact Hexec |].
  rewrite (sendMessage_accepted key _ Hblank). cbn [exec perform].
  erewrite exec_awaiting_reply_of
    by (eapply exec_replies_session; [apply callGeminiApi_replies | exact Hexec]).
  unfold turn_done, replied. cbn. rewrite <- app_assoc. reflexivity.
Qed.

(** X5. A whole send with nothing in between: the history gains the draft as
    the user message and, as the assistant message, exactly the value
    [callGeminiApi] returns for that draft in the same environment; the
    draft is cleared, the flag is down again, and the effects are those of
    the resolver alone (no alert). *)
Theorem send_uninterrupted key render env s log :
  (trim (message render) =? "") = false ->
  exists v added,
    exec env (callGeminiApi key (message render)) (s, log)
    = (Fulfilled v, (s, (log ++ added)%list))
    /\ exec env (sendMessage key render) (s, log)
       = (Fulfilled tt, (turn_done render v s, (log ++ added)%list)).
Proof. apply exec_sendMessage_turn. Qed.

Lemma send_uninterrupted_witness :
  exec (env_reply "Hello back")
    (sendMessage (Some "k") {| message := "hi"; isLoading := false;
                               chatHistory := [greeting] |})
    (initial_session, [])
  = (Fulfilled tt,
     ({| message := ""; isLoading := false;
         chatHistory := [greeting; user_message 1 "hi";
                         bot_message 1 (VString "Hello back")] |},
      [Fetched (request_url (Some "k")) (request_init "hi")])).
Proof.
  destruct (@send_uninterrupted (Some "k")
              {| message := "hi"; isLoading := false; chatHistory := [greeting] |}
              (env_reply "Hello back") initial_session [] eq_refl)
    as (v & added & Hresolver & Hsend).
  rewrite Hsend. injection Hresolver as <- <-. reflexivity.
Defined.

(** ** The screen's run of a send and the uninterrupted run *)

Lemma settles_idle key env k : forall w,
  tasks w = [] -> run_events (ui key) (repeat (Settle 0 env) k) w = w.
Proof.
  induction k as [| k IH]; intros w Hidle; [reflexivity |].
  cbn [repeat run_events]. rewrite settle_idle by exact Hidle. apply IH. exact Hidle.
Qed.

(** Settling the one send that waits until it is over gives what running it
    to the end gives. *)
Lemma settle_all key env k : forall w n q,
  tasks w = [awaiting_reply n q] ->
  (forall e, Resolving k (resume e q)) ->
  let w' := run_events (ui key) (repeat (Settle 0 env) (S k)) w in
  tasks w' = []
  /\ (session w', effects w')
     = snd (exec env (resume env (awaiting_reply n q)) (session w, effects w)).
Proof.
  induction k as [| k IH]; intros w n q Htasks Hq; cbn zeta;
    cbn [repeat run_events ui handle]; rewrite Htasks; cbn [nth_error remove_nth];
    rewrite resume_awaiting_reply, exec_run; unfold advance;
    destruct (run_awaiting_reply (Hq env) n (session w) (effects w))
      as [(v & log' & Hrun) | (q' & log' & k' & Hrun & Hk & _ & Hq')];
    rewrite Hrun; try discriminate.
  - split; reflexivity.
  - rewrite settles_idle by reflexivity. split; reflexivity.
  - injection Hk as <-.
    apply (IH {| session := session w; tasks := [awaiting_reply n q'];
                 effects := log' |} n q' eq_refl Hq').
Qed.

Lemma exec_sendMessage_accepted key render env log :
  (trim (message render) =? "") = false ->
  exec env (sendMessage key render) (render, log)
  = exec env (awaiting_reply (length (chatHistory render))
                (callGeminiApi key (message render)))
      (submitted render, log).
Proof. intros Hblank. rewrite (sendMessage_accepted key _ Hblank). reflexivity. Qed.

(** X6. On the gated screen, an accepted send followed by the settlements
    of its promises, all answered by one environment, shows exactly what
    [callGeminiApi] returns for the draft in that environment: the history
    gains the draft and that value, the draft is cleared, the flag is down,
    nothing waits, and the effects added are the resolver's. *)
Theorem screen_shows_resolver_reply key env w :
  tasks w = [] ->
  accepted PressSend w = true ->
  let w' := run_events (ui key) [PressSend; Settle 0 env; Settle 0 env] w in
  exists v added,
    exec env (callGeminiApi key (message (session w))) (session w, effects w)
    = (Fulfilled v, (session w, (effects w ++ added)%list))
    /\ session w' = turn_done (session w) v (session w)
    /\ effects w' = (effects w ++ added)%list
    /\ tasks w' = [].
Proof.
  intros Hidle Hacc w'.
  cbn [accepted] in Hacc. apply negb_true_iff in Hacc.
  assert (Hblank : (trim (message (session w)) =? "") = false)
    by (unfold disabled in Hacc; apply orb_false_iff in Hacc; tauto).
  destruct (@exec_sendMessage_turn key (session w) env (session w) (effects w) Hblank)
    as (v & added & Hresolver & Hsend).
  exists v, added. split; [exact Hresolver |].
  assert (Hrun : tasks w' = []
                 /\ (session w', effects w')
                    = snd (exec env (sendMessage key (session w)) (session w, effects w))).
  { subst w'. cbn [run_events].
    change (ui key PressSend w)
      with (if disabled (session w) then w else handle key PressSend w).
    rewrite Hacc.
    rewrite (handle_send_accepted key w Hblank), Hidle.
    rewrite (exec_sendMessage_accepted key (session w) env (effects w) Hblank).
    rewrite exec_run. unfold advance. cbn [session effects].
    destruct (run_awaiting_reply (callGeminiApi_resolving key (message (session w)))
                (length (chatHistory (session w))) (submitted (session w)) (effects w))
      as [(v0 & log' & Hdone) | (q' & log' & k' & Hwait & Hk & _ & Hq')].
    - rewrite Hdone. rewrite !settle_idle by (try rewrite settle_idle; reflexivity).
      split; reflexivity.
    - rewrite Hwait. injection Hk as <-.
      apply (@settle_all key env 1
               {| session := submitted (session w);
                  tasks := [awaiting_reply (length (chatHistory (session w))) q'];
                  effects := log' |} _ q' eq_refl Hq'). }
  destruct Hrun as [Hnone Hcells]. rewrite Hsend in Hcells. cbn [snd] in Hcells.
  injection Hcells as -> ->. auto.
Qed.

Lemma screen_shows_resolver_reply_witness :
  let w := ui (Some "k") (ChangeText "hi") initial_world in
  tasks w = [] /\ accepted PressSend w = true
  /\ history_of (run_events (ui (Some "k"))
                   [PressSend; Settle 0 (env_reply "Hello back");
                    Settle 0 (env_reply "Hello back")] w)
     = [(1, VString "Hello! How can I help you today?", true);
        (2, VString "hi", false);
        (3, VString "Hello back", true)].
Proof.
  intros w. split; [reflexivity |]. split; [reflexivity |].
  destruct (@screen_shows_resolver_reply (Some "k") (env_reply "Hello back") w
              eq_refl eq_refl) as (v & added & Hresolver & Hs & _).
  unfold history_of. rewrite Hs. injection Hresolver as <- _. reflexivity.
Defined.

(** ** The handlers called in any order *)

Lemma run_awaiting_reply_effects key draft c q (Hq : Replies key draft c q) :
  forall n s log,
  exists added,
    fetch_count added = c
    /\ Forall (resolver_effect key draft) added
    /\ ((exists v,
            truthy v = true
            /\ run (awaiting_reply n q) (s, log)
               = (Done (Fulfilled tt), (replied n v s, (log ++ added)%list)))
        \/ (exists q',
               (forall env, Replies key draft 0 (resume env q'))
               /\ run (awaiting_reply n q) (s, log)
                  = (Suspended (awaiting_reply n q'), (s, (log ++ added)%list)))).
Proof.
  induction Hq; intros n s log.
  - exists []. rewrite app_nil_r. split; [reflexivity |]. split; [constructor |].
    left. exists v. split; [assumption | reflexivity].
  - destruct (IHHq n s (log ++ [Logged args])%list) as (added & Hc & Hall & Hrun).
    exists (Logged args :: added).
    change (run (awaiting_reply n (Do (ConsoleError args) q)) (s, log))
      with (run (awaiting_reply n q) (s, (log ++ [Logged args])%list)).
    rewrite <- app_assoc in Hrun.
    split; [exact Hc |]. split; [constructor; [right; eauto | assumption] | exact Hrun].
  - exists [Fetched (request_url key) (request_init draft)].
    split; [reflexivity |]. split; [repeat constructor |].
    right. exists (AwaitFetch (request_url key) (request_init draft) f).
    split; [intros env; apply H | reflexivity].
  - exists []. rewrite app_nil_r. split; [reflexivity |]. split; [constructor |].
    right. exists (AwaitText r f). split; [intros env; apply H | reflexivity].
  - exists []. rewrite app_nil_r. split; [reflexivity |]. split; [constructor |].
    right. exists (AwaitJson r f). split; [intros env; apply H | reflexivity].
Qed.

Lemma advance_awaiting_reply_effects key draft c q n w waiting :
  Replies key draft c q ->
  let w' := advance (awaiting_reply n q) w waiting in
  exists added,
    effects w' = (effects w ++ added)%list
    /\ fetch_count added = c
    /\ Forall (resolver_effect key draft) added
    /\ ((exists v, truthy v = true
                   /\ session w' = replied n v (session w) /\ tasks w' = waiting)
        \/ (exists q', (forall env, Replies key draft 0 (resume env q'))
                       /\ session w' = session w
                       /\ tasks w' = (waiting ++ [awaiting_reply n q'])%list)).
Proof.
  intros Hq w'. subst w'. unfold advance.
  destruct (run_awaiting_reply_effects Hq n (session w) (effects w))
    as (added & Hc & Hall & [(v & Hv & Hrun) | (q' & Hq' & Hrun)]);
    rewrite Hrun; exists added; cbn [session tasks effects];
    (split; [reflexivity |]); (split; [exact Hc |]); (split; [exact Hall |]).
  - left. exists v. auto.
  - right. exists q'. auto.
Qed.

Lemma resolver_effect_ok key draft e :
  (trim draft =? "") = false -> resolver_effect key draft e -> effect_ok key e.
Proof.
  intros Hblank [-> | (args & ->)]; cbn; [| exact I].
  split; [reflexivity |]. exists draft. auto.
Qed.

Lemma remove_nth_length {A : Type} (l : list A) : forall i x,
  nth_error l i = Some x -> length l = S (length (remove_nth i l)).
Proof.
  induction l as [| y l IH]; intros [| i] x Hx; try discriminate; cbn in *.
  - reflexivity.
  - f_equal. eapply IH. exact Hx.
Qed.

Lemma remove_nth_Forall {A : Type} (P : A -> Prop) (l : list A) : forall i,
  Forall P l -> Forall P (remove_nth i l).
Proof.
  induction l as [| y l IH]; intros i Hl; [destruct i; constructor |].
  inversion Hl; subst. destruct i; cbn; [assumption |]. constructor; auto.
Qed.

Lemma nth_error_Forall {A : Type} (P : A -> Prop) (l : list A) i x :
  Forall P l -> nth_error l i = Some x -> P x.
Proof.
  intros Hl Hx. apply nth_error_In in Hx. rewrite Forall_forall in Hl. auto.
Qed.

(** One handler call: the invariant stays; the history only grows at its
    end; a send that is taken adds two to history plus waiting sends, and one
    request if the key is configured; nothing else adds any. *)
Lemma handle_step key e w :
  handlers_invariant key w ->
  let w' := handle key e w in
  handlers_invariant key w'
  /\ (exists suffix,
         chatHistory (session w') = (chatHistory (session w) ++ suffix)%list)
  /\ length (chatHistory (session w')) + length (tasks w')
     = length (chatHistory (session w)) + length (tasks w)
       + 2 * (if sent e w then 1 else 0)
  /\ fetch_count (effects w')
     = fetch_count (effects w)
       + (if sent e w then if configured key then 1 else 0 else 0).
Proof.
  intros (Htasks & Hhist & Heff) w'. subst w'.
  destruct e as [value | | i env]; cbn [sent].
  - (* setMessage *)
    cbn. split; [split; [| split]; assumption |].
    split; [exists []; rewrite app_nil_r; reflexivity |]. split; unfold fetch_count; lia.
  - (* sendMessage *)
    destruct (trim (message (session w)) =? "") eqn:Hblank; cbn [negb].
    + cbn [handle]. rewrite (sendMessage_blank key _ Hblank). cbn.
      split; [split; [| split]; assumption |].
      split; [exists []; rewrite app_nil_r; reflexivity |]. split; unfold fetch_count; lia.
    + rewrite (handle_send_accepted key w Hblank).
      set (n := length (chatHistory (session w))).
      set (w1 := {| session := submitted (session w); tasks := tasks w;
                    effects := effects w |}).
      destruct (@advance_awaiting_reply_effects key (message (session w)) _ _ n w1
                  (tasks w) (callGeminiApi_replies key (message (session w))))
        as (added & Heffects & Hc & Hall & Hcases).
      assert (Hadded : Forall (effect_ok key) added).
      { eapply Forall_impl; [| exact Hall].
        intros e. apply resolver_effect_ok. exact Hblank. }
      assert (Huser : message_ok (user_message n (message (session w)))).
      { split; [cbn; destruct (message (session w)); [discriminate | reflexivity] |].
        intros _. exists (message (session w)). auto. }
      assert (Hcount : fetch_count (effects (advance
                         (awaiting_reply n (callGeminiApi key (message (session w))))
                         w1 (tasks w)))
                       = fetch_count (effects w) + (if configured key then 1 else 0)).
      { rewrite Heffects, fetch_count_app, Hc. reflexivity. }
      destruct Hcases as [(v & Hv & Hs & Ht) | (q' & Hq' & Hs & Ht)].
      * split; [split; [| split] |]; [| | | split; [| split]].
        -- rewrite Ht. exact Htasks.
        -- rewrite Hs. cbn. rewrite !Forall_app. repeat split; auto.
           constructor; [| constructor]. split; [exact Hv | discriminate].
        -- rewrite Heffects. apply Forall_app. auto.
        -- rewrite Hs. cbn. rewrite <- app_assoc. eexists. reflexivity.
        -- rewrite Hs, Ht. cbn. rewrite !length_app. cbn. fold n. lia.
        -- exact Hcount.
      * split; [split; [| split] |]; [| | | split; [| split]].
        -- rewrite Ht. apply Forall_app. split; [exact Htasks |].
           constructor; [| constructor]. exists n, (message (session w)), q'. auto.
        -- rewrite Hs. cbn. apply Forall_app. auto.
        -- rewrite Heffects. apply Forall_app. auto.
        -- rewrite Hs. cbn. eexists. reflexivity.
        -- rewrite Hs, Ht. cbn. rewrite !length_app. cbn. fold n. lia.
        -- exact Hcount.
  - (* a promise settles *)
    cbn [handle].
    destruct (nth_error (tasks w) i) as [task |] eqn:Htask.
    + destruct (nth_error_Forall _ Htasks Htask) as (n & draft & q & -> & Hblank & Hq).
      rewrite resume_awaiting_reply.
      destruct (@advance_awaiting_reply_effects key draft 0 (resume env q) n w
                  (remove_nth i (tasks w)) (Hq env))
        as (added & Heffects & Hc & Hall & Hcases).
      assert (Hadded : Forall (effect_ok key) added).
      { eapply Forall_impl; [| exact Hall].
        intros e. apply resolver_effect_ok. exact Hblank. }
      pose proof (remove_nth_length _ _ Htask) as Hlen.
      pose proof (remove_nth_Forall i Htasks) as Hrest.
      assert (Hcount : fetch_count (effects (advance (awaiting_reply n (resume env q)) w
                                              (remove_nth i (tasks w))))
                       = fetch_count (effects w) + 0).
      { rewrite Heffects, fetch_count_app, Hc. reflexivity. }
      destruct Hcases as [(v & Hv & Hs & Ht) | (q' & Hq' & Hs & Ht)].
      * split; [split; [| split] |]; [| | | split; [| split]].
        -- rewrite Ht. exact Hrest.
        -- rewrite Hs. cbn. apply Forall_app. split; auto.
           constructor; [| constructor]. split; [exact Hv | discriminate].
        -- rewrite Heffects. apply Forall_app. auto.
        -- rewrite Hs. cbn. eexists. reflexivity.
        -- rewrite Hs, Ht. cbn. rewrite length_app. cbn. lia.
        -- exact Hcount.
      * split; [split; [| split] |]; [| | | split; [| split]].
        -- rewrite Ht. apply Forall_app. split; [exact Hrest |].
           constructor; [| constructor]. exists n, draft, q'. auto.
        -- rewrite Hs. exact Hhist.
        -- rewrite Heffects. apply Forall_app. auto.
        -- rewrite Hs. exists []. rewrite app_nil_r. reflexivity.
        -- rewrite Hs, Ht. rewrite length_app. cbn. lia.
        -- exact Hcount.
    + split; [split; [| split]; assumption |].
      split; [exists []; rewrite app_nil_r; reflexivity |]. split; unfold fetch_count; lia.
Qed.

Lemma initial_handlers_invariant key : handlers_invariant key initial_world.
Proof.
  split; [constructor |]. split; [| constructor].
  constructor; [| constructor]. split; [reflexivity | discriminate].
Qed.

Lemma handle_trace key trace : forall w,
  handlers_invariant key w ->
  let w' := run_events (handle key) trace w in
  handlers_invariant key w'
  /\ (exists suffix,
         chatHistory (session w') = (chatHistory (session w) ++ suffix)%list)
  /\ length (chatHistory (session w')) + length (tasks w')
     = length (chatHistory (session w)) + length (tasks w) + 2 * sends key trace w
  /\ fetch_count (effects w')
     = fetch_count (effects w) + (if configured key then 1 else 0) * sends key trace w.
Proof.
  induction trace as [| e rest IH]; intros w Hw; cbn [run_events sends].
  - split; [exact Hw |]. split; [exists []; rewrite app_nil_r; reflexivity |].
    split; lia.
  - destruct (handle_step e Hw) as (Hw1 & (suffix1 & Hpre1) & Hlen1 & Hfetch1).
    destruct (IH _ Hw1) as (Hw' & (suffix & Hpre) & Hlen & Hfetch).
    split; [exact Hw' |]. split; [| split].
    + exists (suffix1 ++ suffix)%list. rewrite Hpre, Hpre1, app_assoc. reflexivity.
    + rewrite Hlen, Hlen1. destruct (sent e w); lia.
    + rewrite Hfetch, Hfetch1. destruct (sent e w), (configured key); lia.
Qed.

Lemma run_events_app step (a b : list Event) : forall w,
  run_events step (a ++ b)%list w = run_events step b (run_events step a w).
Proof. induction a as [| e a IH]; intros w; [reflexivity | apply IH]. Qed.

(** X7. The history is append-only, whatever order the handlers are called
    in: what it holds after some events is a prefix of what it holds after
    any further events (no edit, no deletion, no reordering). *)
Theorem history_append_only key trace more :
  exists suffix,
    chatHistory (session (run_events (handle key) (trace ++ more)%list initial_world))
    = (chatHistory (session (run_events (handle key) trace initial_world))
         ++ suffix)%list.
Proof.
  rewrite run_events_app.
  destruct (@handle_trace key trace _ (initial_handlers_invariant key)) as (Hw & _).
  destruct (@handle_trace key more _ Hw) as (_ & Hprefix & _).
  exact Hprefix.
Qed.

(** X8. Even when sends overlap (handlers called with no gate), every send
    that [sendMessage] takes gets exactly one reply: at any time the length
    of the history plus the number of sends still waiting is 1 + 2 x (sends
    taken). *)
Theorem one_reply_per_send key trace :
  let w := run_events (handle key) trace initial_world in
  length (chatHistory (session w)) + length (tasks w)
  = 1 + 2 * sends key trace initial_world.
Proof.
  destruct (@handle_trace key trace _ (initial_handlers_invariant key))
    as (_ & _ & Hlen & _).
  exact Hlen.
Qed.

(** X9. Whatever order the handlers are called in, the screen never shows
    the alert of [sendMessage]'s catch branch; every request goes to the
    endpoint with the configured key and carries one draft that is not
    blank; and the number of requests is the number of sends taken when the
    key is configured, and zero when it is not. *)
Theorem requests_and_alerts key trace :
  let w := run_events (handle key) trace initial_world in
  Forall (effect_ok key) (effects w)
  /\ fetch_count (effects w)
     = (if configured key then 1 else 0) * sends key trace initial_world.
Proof.
  destruct (@handle_trace key trace _ (initial_handlers_invariant key))
    as ((_ & _ & Heff) & _ & _ & Hfetch).
  split; [exact Heff | exact Hfetch].
Qed.

(** X10. Whatever order the handlers are called in, every message of the
    history has a truthy text (never empty), and every user message holds, as
    a string, a draft that is not blank. *)
Theorem messages_never_blank key trace :
  Forall message_ok
    (chatHistory (session (run_events (handle key) trace initial_world))).
Proof.
  destruct (@handle_trace key trace _ (initial_handlers_invariant key))
    as ((_ & Hhist & _) & _).
  exact Hhist.
Qed.

(** ** Turns on the gated screen *)

Lemma alternates_snoc h m :
  alternates h -> isBot m = Nat.even (length h) -> alternates (h ++ [m])%list.
Proof.
  unfold alternates. intros Hh Hm.
  rewrite map_app, length_app, seq_app, map_app, Hh. cbn. rewrite Hm. reflexivity.
Qed.

Lemma ui_turn_step key e w :
  screen_invariant w -> turn_invariant w -> turn_invariant (ui key e w).
Proof.
  intros Hw Hturn. pose proof Hturn as (Halt & Hodd & Hdraft).
  pose proof Hw as [_ Hflight].
  destruct e as [value | | i env].
  - cbn [ui]. unfold editable.
    destruct (isLoading (session w)) eqn:Hloading; cbn [negb]; [exact Hturn |].
    unfold turn_invariant. cbn. rewrite Hloading.
    split; [exact Halt |]. split; [exact Hodd | discriminate].
  - destruct (disabled (session w)) eqn:Hgate;
      [cbn [ui]; rewrite Hgate; exact Hturn |].
    assert (Hloading : isLoading (session w) = false)
      by (unfold disabled in Hgate; apply orb_false_iff in Hgate; tauto).
    assert (Htasks : tasks w = []) by (apply idle_no_tasks; assumption).
    rewrite Hloading in Hodd. cbn [negb] in Hodd.
    assert (Heven : Nat.even (length (chatHistory (session w))) = false)
      by (rewrite <- Nat.negb_odd, Hodd; reflexivity).
    unfold turn_invariant.
    destruct (press_accepted key w Htasks Hgate)
      as [[_ (v & Hs)] | [Hs _]]; rewrite Hs;
      cbn [replied submitted chatHistory isLoading message negb].
    + split; [| split; [| discriminate]].
      * apply alternates_snoc; [apply alternates_snoc |]; auto.
        rewrite length_app, Nat.add_1_r, Nat.even_succ, Hodd. reflexivity.
      * rewrite !length_app. cbn [length]. rewrite !Nat.add_1_r, Nat.odd_succ, Nat.even_succ.
        exact Hodd.
    + split; [| split; [| reflexivity]].
      * apply alternates_snoc; auto.
      * rewrite length_app, Nat.add_1_r, Nat.odd_succ. exact Heven.
  - unfold single_flight in Hflight.
    destruct (isLoading (session w)) eqn:Hloading.
    + destruct Hflight as (n & k & Hlen & Hsend).
      destruct i as [| i]; [| rewrite (settle_other key env i Hsend); exact Hturn].
      cbn [negb] in Hodd.
      assert (Heven : Nat.even (length (chatHistory (session w))) = true)
        by (rewrite <- Nat.negb_odd, Hodd; reflexivity).
      destruct (settle_pending key env Hsend)
        as [[_ (v & Hs)] | (k' & _ & [Hs _])]; unfold turn_invariant; rewrite Hs.
      * cbn [replied chatHistory isLoading message negb].
        split; [| split; [| discriminate]].
        -- apply alternates_snoc; auto.
        -- rewrite length_app, Nat.add_1_r, Nat.odd_succ. exact Heven.
      * exact Hturn.
    + rewrite (settle_idle key env i w Hflight). exact Hturn.
Qed.

Lemma ui_turn_trace key trace : forall w,
  screen_invariant w -> turn_invariant w ->
  turn_invariant (run_events (ui key) trace w).
Proof.
  induction trace as [| e rest IH]; intros w Hw Hturn; [exact Hturn |].
  cbn [run_events]. apply IH; [apply (ui_step key e Hw) | apply ui_turn_step; assumption].
Qed.

Lemma initial_turn_invariant : turn_invariant initial_world.
Proof. split; [reflexivity |]. split; [reflexivity | discriminate]. Qed.

(** X11. On the gated screen [isLoading] is true exactly while one send
    waits: the number of sends waiting is 1 when the flag is up and 0 when it
    is down, in every state reached. *)
Theorem flag_counts_waiting_sends key trace :
  let w := run_events (ui key) trace initial_world in
  length (tasks w) = (if isLoading (session w) then 1 else 0).
Proof.
  intros w.
  destruct (ui_trace key trace initial_world_invariant) as [[_ Hflight] _]. fold w in Hflight.
  unfold single_flight in Hflight. destruct (isLoading (session w)).
  - destruct Hflight as (n & k & _ & _ & q & -> & _). reflexivity.
  - rewrite Hflight. reflexivity.
Qed.

(** X12. On the gated screen the draft is empty whenever a reply is awaited
    (the send cleared it and the input is not editable), so in every state
    reached with the flag up [sendMessage] itself, if called, does
    nothing. *)
Theorem draft_empty_while_loading key trace :
  let w := run_events (ui key) trace initial_world in
  isLoading (session w) = true ->
  message (session w) = "" /\ handle key PressSend w = w.
Proof.
  intros w Hloading.
  destruct (@ui_turn_trace key trace _ initial_world_invariant initial_turn_invariant)
    as (_ & _ & Hdraft). fold w in Hdraft.
  specialize (Hdraft Hloading). split; [exact Hdraft |].
  cbn [handle]. rewrite sendMessage_blank by (rewrite Hdraft; reflexivity).
  destruct w; reflexivity.
Qed.

Lemma draft_empty_while_loading_witness :
  let w := run_events (ui (Some "k"))
             [ChangeText "hi"; PressSend; ChangeText "more"; PressSend] initial_world in
  isLoading (session w) = true /\ message (session w) = "".
Proof.
  intros w. split; [reflexivity |].
  apply (@draft_empty_while_loading (Some "k")
           [ChangeText "hi"; PressSend; ChangeText "more"; PressSend]).
  reflexivity.
Defined.

(** X13. On the gated screen assistant and user take turns: the messages at
    even 0-based positions are the assistant's and those at odd positions
    the user's, and the history has odd length (so ends with an assistant
    message) exactly when no reply is awaited. *)
Theorem turns_alternate key trace :
  let w := run_events (ui key) trace initial_world in
  map isBot (chatHistory (session w))
  = map Nat.even (seq 0 (length (chatHistory (session w))))
  /\ Nat.odd (length (chatHistory (session w))) = negb (isLoading (session w)).
Proof.
  intros w.
  destruct (@ui_turn_trace key trace _ initial_world_invariant initial_turn_invariant)
    as (Halt & Hodd & _).
  split; assumption.
Qed.

(** ** What the screen shows *)

Lemma keys_scroll_content render :
  View.keys (View.scroll_content render) = map id (chatHistory render).
Proof.
  unfold View.scroll_content.
  induction (chatHistory render) as [| m h IH]; cbn.
  - destruct (isLoading render); reflexivity.
  - rewrite IH. reflexivity.
Qed.

(** X14. In every state the gated screen reaches, the bubbles rendered for
    the history carry the keys 1, 2, ..., n in order, so no two children of
    the scroll view share a key; the list shown has one bubble per message,
    plus the keyless "Thinking..." bubble exactly while a reply is
    awaited. *)
Theorem bubble_keys_distinct key trace :
  let s := session (run_events (ui key) trace initial_world) in
  View.keys (View.scroll_content s) = seq 1 (length (chatHistory s))
  /\ NoDup (View.keys (View.scroll_content s))
  /\ View.scroll_content s
     = (map View.renderChatBubble (chatHistory s)
          ++ repeat View.thinking (if isLoading s then 1 else 0))%list
  /\ length (View.scroll_content s)
     = length (chatHistory s) + (if isLoading s then 1 else 0).
Proof.
  intros s.
  destruct (@ui_trace key trace _ initial_world_invariant) as [[Hids _] _].
  fold s in Hids. rewrite keys_scroll_content, Hids.
  split; [reflexivity |]. split; [apply seq_NoDup |].
  unfold View.scroll_content.
  split; [destruct (isLoading s); reflexivity |].
  rewrite length_app, length_map. destruct (isLoading s); reflexivity.
Qed.

(** ** The credential, from the configuration to the request *)

(** X15. A non-empty key in [.env.js] is the key the screen uses, unchanged,
    and every request the screen ever issues goes to the endpoint with
    [?key=] followed by that key. *)
Theorem configured_key_reaches_requests c rest trace :
  let k := String c rest in
  let key := read_api_key (Some (app_config (Some k))) in
  key = Some k
  /\ Forall (fun e => forall input init,
                 e = Fetched input init -> input = API_URL ++ "?key=" ++ k)
       (effects (run_events (handle key) trace initial_world)).
Proof.
  intros k key. split; [reflexivity |].
  destruct (@handle_trace key trace _ (initial_handlers_invariant key))
    as ((_ & _ & Heff) & _).
  eapply Forall_impl; [| exact Heff].
  intros e He input init ->. destruct He as [-> _]. reflexivity.
Qed.

(** ** The mock screen *)

Lemma mock_step_invariant e w :
  Mock.invariant w ->
  Mock.invariant (Mock.ui e w)
  /\ length (Mock.chatHistory (Mock.session (Mock.ui e w)))
     + length (Mock.timers (Mock.ui e w))
     = length (Mock.chatHistory (Mock.session w)) + length (Mock.timers w)
       + 2 * (if Mock.accepted e w then 1 else 0).
Proof.
  intros [Htimers Hhist].
  destruct e as [value | | i]; cbn [Mock.ui Mock.accepted].
  - cbn. split; [split; assumption | lia].
  - unfold Mock.disabled.
    destruct (trim (Mock.message (Mock.session w)) =? "") eqn:Hblank; cbn [negb];
      [split; [split; assumption | lia] |].
    cbn [Mock.handle]. unfold Mock.sendMessage. rewrite Hblank. cbn.
    split; [split |].
    + apply Forall_app. split; [exact Htimers |].
      constructor; [| constructor].
      exists (length (Mock.chatHistory (Mock.session w))). reflexivity.
    + apply Forall_app. split; [exact Hhist |].
      constructor; [| constructor].
      exists (Mock.message (Mock.session w)). auto.
    + rewrite !length_app. cbn. lia.
  - cbn [Mock.handle].
    destruct (nth_error (Mock.timers w) i) as [callback |] eqn:Hi;
      [| split; [split; assumption | lia]].
    destruct (nth_error_Forall _ Htimers Hi) as (n & ->).
    pose proof (remove_nth_length _ _ Hi) as Hlen. cbn.
    split; [split |].
    + apply remove_nth_Forall. exact Htimers.
    + apply Forall_app. split; [exact Hhist |].
      constructor; [| constructor]. right. reflexivity.
    + rewrite length_app. cbn. lia.
Qed.

Lemma mock_initial_invariant : Mock.invariant Mock.initial_world.
Proof.
  split; [constructor |]. constructor; [| constructor]. left. reflexivity.
Qed.

Lemma mock_trace_invariant trace : forall w,
  Mock.invariant w ->
  Mock.invariant (Mock.run_events trace w)
  /\ length (Mock.chatHistory (Mock.session (Mock.run_events trace w)))
     + length (Mock.timers (Mock.run_events trace w))
     = length (Mock.chatHistory (Mock.session w)) + length (Mock.timers w)
       + 2 * Mock.accepted_submits trace w.
Proof.
  induction trace as [| e rest IH]; intros w Hw;
    cbn [Mock.run_events Mock.accepted_submits].
  - split; [exact Hw | lia].
  - destruct (mock_step_invariant e Hw) as [Hw1 Hlen1].
    destruct (IH _ Hw1) as [Hw' Hlen]. split; [exact Hw' | lia].
Qed.

(** X16. On the mock screen, which has no [isLoading] gate, every accepted
    send still gets exactly one reply: at any time the length of the history
    plus the number of timers waiting is 1 + 2 x (accepted sends), however
    sends and timers interleave. *)
Theorem mock_one_reply_per_send trace :
  let w := Mock.run_events trace Mock.initial_world in
  length (Mock.chatHistory (Mock.session w)) + length (Mock.timers w)
  = 1 + 2 * Mock.accepted_submits trace Mock.initial_world.
Proof.
  destruct (@mock_trace_invariant trace _ mock_initial_invariant) as [_ Hlen].
  exact Hlen.
Qed.

(** X17. On the mock screen every assistant message is the seeded greeting
    or carries the fixed placeholder text, and every user message holds a
    draft that is not blank, as typed. *)
Theorem mock_messages trace :
  Forall Mock.message_ok
    (Mock.chatHistory (Mock.session (Mock.run_events trace Mock.initial_world))).
Proof.
  destruct (@mock_trace_invariant trace _ mock_initial_invariant) as [[_ Hhist] _].
  exact Hhist.
Qed.

Lemma mock_sequential_step e w :
  Mock.sequential_invariant w ->
  (negb (Mock.accepted e w) || match Mock.timers w with [] => true | _ => false end)
  = true ->
  Mock.sequential_invariant (Mock.ui e w).
Proof.
  intros [Hids Htimers] Hgate.
  destruct e as [value | | i]; cbn [Mock.ui Mock.accepted] in *.
  - split; assumption.
  - unfold Mock.disabled in *.
    destruct (trim (Mock.message (Mock.session w)) =? "") eqn:Hblank;
      [split; assumption |].
    cbn [negb orb] in Hgate. destruct (Mock.timers w) eqn:Hnone; [| discriminate].
    cbn [Mock.handle]. unfold Mock.sendMessage. rewrite Hblank, Hnone.
    split; cbn.
    + apply ids_snoc; [exact Hids | reflexivity].
    + right. exists (length (Mock.chatHistory (Mock.session w))). eexists.
      rewrite length_app. cbn. split; [reflexivity |]. split; reflexivity.
  - cbn [Mock.handle].
    destruct Htimers as [Hnone | (n & callback & Hlen & Hcb & Hone)].
    + rewrite Hnone. destruct i; cbn; (split; [exact Hids | left; exact Hnone]).
    + rewrite Hone. destruct i as [| i]; cbn [nth_error].
      * rewrite Hcb. split; cbn; [| left; reflexivity].
        apply ids_snoc; [exact Hids |]. cbn. lia.
      * destruct i; cbn; (split; [exact Hids |]); right; exists n, callback; auto.
Qed.

Lemma mock_sequential_trace trace : forall w,
  Mock.sequential_invariant w ->
  Mock.one_at_a_time trace w = true ->
  Mock.sequential_invariant (Mock.run_events trace w).
Proof.
  induction trace as [| e rest IH]; intros w Hw Hseq; [exact Hw |].
  cbn [Mock.one_at_a_time] in Hseq. apply andb_true_iff in Hseq as [Hgate Hrest].
  cbn [Mock.run_events]. apply IH; [apply mock_sequential_step; assumption | exact Hrest].
Qed.

Lemma mock_initial_sequential : Mock.sequential_invariant Mock.initial_world.
Proof. split; [reflexivity | left; reflexivity]. Qed.

(** X18. On the mock screen, as long as each send is made with no timer
    waiting, every message's id is its 1-based position in the history. *)
Theorem mock_sequential_ids trace :
  Mock.one_at_a_time trace Mock.initial_world = true ->
  let h := Mock.chatHistory (Mock.session (Mock.run_events trace Mock.initial_world)) in
  map id h = seq 1 (length h).
Proof.
  intros Hseq h.
  apply (@mock_sequential_trace trace _ mock_initial_sequential Hseq).
Qed.

Lemma mock_sequential_ids_witness :
  let trace := [Mock.ChangeText "a"; Mock.PressSend; Mock.ChangeText "b";
                Mock.TimerFires 0; Mock.PressSend; Mock.TimerFires 0] in
  Mock.one_at_a_time trace Mock.initial_world = true
  /\ map id (Mock.chatHistory (Mock.session (Mock.run_events trace Mock.initial_world)))
     = [1; 2; 3; 4; 5].
Proof.
  intros trace. split; [reflexivity |].
  apply (@mock_sequential_ids trace). reflexivity.
Defined.

(** X19. On the mock screen the first send that overlaps another breaks the
    ids: if no send has overlapped so far, a timer waits, and a send is
    accepted, then once the waiting timer fires the user message of the new
    send and the assistant reply of the earlier one sit next to each other
    with the same id. *)
Theorem mock_overlap_duplicates_id trace :
  Mock.one_at_a_time trace Mock.initial_world = true ->
  let w := Mock.run_events trace Mock.initial_world in
  Mock.timers w <> [] ->
  Mock.accepted Mock.PressSend w = true ->
  let w' := Mock.run_events [Mock.PressSend; Mock.TimerFires 0] w in
  exists u b,
    Mock.chatHistory (Mock.session w')
    = (Mock.chatHistory (Mock.session w) ++ [u; b])%list
    /\ isBot u = false /\ isBot b = true /\ id u = id b.
Proof.
  intros Hseq w Hwaiting Hacc w'.
  pose proof (@mock_sequential_trace trace _ mock_initial_sequential Hseq) as Hw.
  fold w in Hw.
  destruct Hw as [_ [Hnone | (n & callback & Hlen & Hcb & Hone)]];
    [contradiction |].
  cbn [Mock.accepted] in Hacc. apply negb_true_iff in Hacc.
  assert (Hpress : Mock.ui Mock.PressSend w
                   = {| Mock.session :=
                          {| Mock.message := "";
                             Mock.chatHistory :=
                               (Mock.chatHistory (Mock.session w)
                                  ++ [user_message
                                        (length (Mock.chatHistory (Mock.session w)))
                                        (Mock.message (Mock.session w))])%list |};
                        Mock.timers :=
                          [callback;
                           Mock.timeout_callback
                             {| id := length (Mock.chatHistory (Mock.session w)) + 2;
                                text := VString Mock.placeholder_reply;
                                isBot := true |}] |}).
  { cbn [Mock.ui]. rewrite Hacc. unfold Mock.disabled in Hacc.
    cbn [Mock.handle]. unfold Mock.sendMessage. rewrite Hacc, Hone. reflexivity. }
  subst w'. cbn [Mock.run_events]. rewrite Hpress.
  cbn [Mock.ui Mock.handle Mock.timers nth_error Mock.session]. rewrite Hcb.
  exists (user_message (length (Mock.chatHistory (Mock.session w)))
            (Mock.message (Mock.session w))).
  exists {| id := n + 2; text := VString Mock.placeholder_reply; isBot := true |}.
  split; [cbn; rewrite <- app_assoc; reflexivity |].
  split; [reflexivity |]. split; [reflexivity |]. cbn. lia.
Qed.

Lemma mock_overlap_duplicates_id_witness :
  let trace := [Mock.ChangeText "a"; Mock.PressSend; Mock.ChangeText "b"] in
  let w := Mock.run_events trace Mock.initial_world in
  Mock.one_at_a_time trace Mock.initial_world = true
  /\ Mock.timers w <> []
  /\ Mock.accepted Mock.PressSend w = true
  /\ exists u b,
       Mock.chatHistory (Mock.session
          (Mock.run_events [Mock.PressSend; Mock.TimerFires 0] w))
       = (Mock.chatHistory (Mock.session w) ++ [u; b])%list
       /\ isBot u = false /\ isBot b = true /\ id u = id b.
Proof.
  intros trace w. split; [reflexivity |].
  assert (Hwaiting : Mock.timers w <> []) by discriminate.
  split; [exact Hwaiting |]. split; [reflexivity |].
  apply (@mock_overlap_duplicates_id trace eq_refl Hwaiting eq_refl).
Defined.
